(** * CRUD routes of the restaurant API (categorias, productos, ingredientes,
      producto_ingrediente): a shallow embedding and its properties.

    The four route modules of [src/routes] are embedded handler by handler.
    Each handler runs in a small state-and-exception monad over a [World]:
    the storage behind the connection pool and the log of the calls made to
    [pool.query].  The pool is a parameter of the handlers; an in-memory
    relational store ([Mem]) gives the statements the routes issue their
    MySQL meaning. *)

From Stdlib Require Import ZArith QArith String Ascii List.
From stdpp Require Import base option list strings gmap sorting.

Local Open Scope Z_scope.
Local Open Scope string_scope.

(** ** JavaScript values *)

(** The values a parsed JSON body, a path parameter or a result column can
    hold.  Numbers are exact rationals: the routes only compare them with
    zero and test them for being integers.  Nested arrays and objects do not
    occur in the fields the routes read and are left out. *)
Inductive JsVal : Type :=
| JUndefined
| JNull
| JBool (b : bool)
| JNum (q : Q)
| JStr (s : string).

(** [v ? a : b] branches on truthiness. *)
Definition truthy (v : JsVal) : bool :=
  match v with
  | JUndefined | JNull => false
  | JBool b => b
  | JNum q => negb (Qeq_bool q 0)
  | JStr s => negb (String.eqb s "")
  end.

(** [v !== undefined] *)
Definition is_defined (v : JsVal) : bool :=
  match v with JUndefined => false | _ => true end.

(** [v ?? d] *)
Definition nullish (v d : JsVal) : JsVal :=
  match v with JUndefined | JNull => d | _ => v end.

Definition JInt (z : Z) : JsVal := JNum (inject_Z z).

(** A plain object: property lookup gives [undefined] for a missing key. *)
Definition prop (o : gmap string JsVal) (k : string) : JsVal :=
  default JUndefined (o !! k).

(** [Array.prototype.join] *)
Fixpoint join (sep : string) (l : list string) : string :=
  match l with
  | [] => ""
  | [x] => x
  | x :: rest => x +:+ sep +:+ join sep rest
  end.

(** ** Requests and responses *)

Record Request := {
  params : gmap string JsVal;
  body : gmap string JsVal
}.

Inductive Payload :=
| Absent
| OneRow (row : gmap string JsVal)
| RowArray (rows : list (gmap string JsVal))
| HeaderObject (affectedRows insertId : Z).

Record ValidationError := { ve_path : string; ve_msg : string }.

(** What [res.status(s).json({ ok, message, data })] sends.  A [data] whose
    value is [undefined] is dropped by JSON serialisation: [Absent]. *)
Record Response := {
  status : Z;
  ok : bool;
  message : string;
  data : Payload;
  errors : list ValidationError
}.

Definition json (st : Z) (o : bool) (msg : string) (d : Payload) : Response :=
  {| status := st; ok := o; message := msg; data := d; errors := [] |}.

(** ** The validation chains (express-validator) *)

Definition digit_of (c : ascii) : option Z :=
  let n := Z.of_N (N_of_ascii c) in
  if ((48 <=? n) && (n <=? 57))%Z then Some (n - 48) else None.

Fixpoint digits_value (acc : Z) (s : string) : option Z :=
  match s with
  | EmptyString => Some acc
  | String c s' =>
      match digit_of c with
      | Some d => digits_value (10 * acc + d) s'
      | None => None
      end
  end.

Definition unsigned_of_string (s : string) : option Z :=
  match s with
  | EmptyString => None
  | _ => digits_value 0 s
  end.

(** The integer a string denotes when it has the shape the library's
    [isInt] accepts: an optional sign and one or more decimal digits. *)
Definition int_of_string (s : string) : option Z :=
  match s with
  | String "-"%char s' => Z.opp <$> unsigned_of_string s'
  | String "+"%char s' => unsigned_of_string s'
  | _ => unsigned_of_string s
  end.

(** A number is an integer when its denominator divides its numerator. *)
Definition Q_is_int (q : Q) : bool := (Qnum q mod Zpos (Qden q) =? 0)%Z.

(** The library validates [String(value)].  For a number that text is a
    plain decimal numeral exactly when the number is an integer below 10^21
    in absolute value; from 10^21 on it is written with an exponent
    ([1e+21]), and a fraction is written with a point. *)
Definition plain_integer (q : Q) : bool :=
  Q_is_int q && (Z.abs (Qnum q / Zpos (Qden q)) <? 10 ^ 21)%Z.

(** *** The float check of the library on a string

    [isFloat(str, options)] matches [str] against a pattern: an optional
    sign, a run of digits, optionally a point and a run of digits, optionally
    an exponent ([e] or [E], an optional sign, one digit or more); both runs
    of digits may be empty.  It refuses the empty string and the lone [.],
    [-] and [+], and with [{ gt }] compares [parseFloat(str)] with the
    bound. *)

Definition is_digit (c : ascii) : bool :=
  if digit_of c is Some _ then true else false.

(** The longest prefix of digits, and what follows it. *)
Fixpoint span_digits (s : string) : string * string :=
  match s with
  | EmptyString => (EmptyString, EmptyString)
  | String c s' =>
      if is_digit c
      then let '(ds, rest) := span_digits s' in (String c ds, rest)
      else (EmptyString, s)
  end.

(** An optional sign: whether it is [-], and what follows it. *)
Definition strip_sign (s : string) : bool * string :=
  match s with
  | String "-"%char s' => (true, s')
  | String "+"%char s' => (false, s')
  | _ => (false, s)
  end.

(** The pieces of a text the pattern matches. *)
Record FloatText := {
  ft_negative : bool;
  ft_integer : string;
  ft_fraction : string;
  ft_exponent : Z
}.

Definition float_text (s : string) : option FloatText :=
  let '(neg, s1) := strip_sign s in
  let '(int, s2) := span_digits s1 in
  let '(frac, s3) :=
    match s2 with
    | String "."%char t => span_digits t
    | _ => (EmptyString, s2)
    end in
  match s3 with
  | EmptyString =>
      Some {| ft_negative := neg; ft_integer := int; ft_fraction := frac;
              ft_exponent := 0 |}
  | String c t =>
      if Ascii.eqb c "e" || Ascii.eqb c "E" then
        let '(eneg, t1) := strip_sign t in
        match unsigned_of_string t1 with
        | Some e =>
            Some {| ft_negative := neg; ft_integer := int; ft_fraction := frac;
                    ft_exponent := if eneg then - e else e |}
        | None => None
        end
      else None
  end.

Definition pow2 (e : Z) : Q :=
  if (0 <=? e)%Z then inject_Z (2 ^ e) else 1 # Z.to_pos (2 ^ (- e)).

Definition decimal (m e : Z) : Q :=
  if (0 <=? e)%Z then inject_Z (m * 10 ^ e) else m # Z.to_pos (10 ^ (- e)).

(** The number a matched text denotes, exactly; [None] where [parseFloat]
    gives NaN: it needs a digit before the exponent. *)
Definition float_value (t : FloatText) : option Q :=
  match ft_integer t +:+ ft_fraction t with
  | EmptyString => None
  | ds =>
      m ← digits_value 0 ds;
      Some (decimal (if ft_negative t then - m else m)
              (ft_exponent t - Z.of_nat (String.length (ft_fraction t))))
  end.

(** The double nearest to a positive rational, ties to even, as
    [parseFloat] rounds; [None] is [Infinity].  With [e] the binary exponent
    of the result (at least -1022, which gives the subnormals their fixed
    spacing) the doubles around [x] are the multiples of [2^(e-52)]. *)
Definition nearest_double (x : Q) : option Q :=
  let n := Qnum x in
  let d := Zpos (Qden x) in
  let e0 := (Z.log2 n - Z.log2 d)%Z in
  let below :=
    if (0 <=? e0)%Z then (n <? d * 2 ^ e0)%Z else (n * 2 ^ (- e0) <? d)%Z in
  let e := Z.max (if below then e0 - 1 else e0) (-1022) in
  let u := (e - 52)%Z in
  let N := if (0 <=? u)%Z then n else (n * 2 ^ (- u))%Z in
  let D := if (0 <=? u)%Z then (d * 2 ^ u)%Z else d in
  let k := (N / D)%Z in
  let rem := (N mod D)%Z in
  let k' :=
    if (2 * rem <? D)%Z then k
    else if (D <? 2 * rem)%Z then (k + 1)%Z
    else if Z.even k then k else (k + 1)%Z in
  if (0 <=? u)%Z && (2 ^ 1024 <=? k' * 2 ^ u)%Z then None
  else Some (inject_Z k' * pow2 u)%Q.

(** [parseFloat(str) > g], for the exact value [x] of [str]. *)
Definition parsed_exceeds (g x : Q) : bool :=
  match (Qnum x ?= 0)%Z with
  | Gt => match nearest_double x with
          | Some y => negb (Qle_bool y g)
          | None => true
          end
  | Eq => negb (Qle_bool 0 g)
  | Lt => match nearest_double (- x) with
          | Some y => negb (Qle_bool (- y) g)
          | None => false
          end
  end.

Definition validator_isFloat (gt : option Q) (s : string) : bool :=
  match float_text s with
  | Some t =>
      negb (existsb (String.eqb s) [""; "."; "-"; "+"])
      && match gt with
         | None => true
         | Some g =>
             match float_value t with
             | Some x => parsed_exceeds g x
             | None => false
             end
         end
  | None => false
  end.

Inductive Location := InBody | InParam.

Inductive Validator :=
| IsInt
| IsString
| NotEmpty
| IsFloat (gt : option Q)
| IsBoolean.

Record Chain := {
  ch_location : Location;
  ch_field : string;
  ch_optional : bool;
  ch_validators : list Validator
}.

Definition param (f : string) : Chain :=
  {| ch_location := InParam; ch_field := f; ch_optional := false; ch_validators := [] |}.
Definition body_ (f : string) : Chain :=
  {| ch_location := InBody; ch_field := f; ch_optional := false; ch_validators := [] |}.
Definition optional (c : Chain) : Chain :=
  {| ch_location := ch_location c; ch_field := ch_field c; ch_optional := true;
     ch_validators := ch_validators c |}.
Definition chained (v : Validator) (c : Chain) : Chain :=
  {| ch_location := ch_location c; ch_field := ch_field c; ch_optional := ch_optional c;
     ch_validators := (ch_validators c ++ [v])%list |}.
Definition isInt := chained IsInt.
Definition isString := chained IsString.
Definition notEmpty := chained NotEmpty.
Definition isFloat := chained (IsFloat None).
Definition isFloat_gt (q : Q) := chained (IsFloat (Some q)).
Definition isBoolean := chained IsBoolean.

(** [body('x').isString().notEmpty()] reads [body_ "x" |> isString |> notEmpty]. *)
Notation "c |> f" := (f c) (at level 45, left associativity, only parsing).

Section Validation.
(** The library validates the string form of a value.  On a string value
    its float check decides; the chains take it as a parameter:
    [isFloatString gt s] is its verdict on [s] under the option [{ gt }].
    The library's own is [validator_isFloat]. *)
Variable isFloatString : option Q -> string -> bool.

Definition passes (v : Validator) (x : JsVal) : bool :=
  match v, x with
  | IsInt, JNum q => plain_integer q
  | IsInt, JStr s => if int_of_string s is Some _ then true else false
  | IsInt, _ => false
  | IsString, JStr _ => true
  | IsString, _ => false
  | NotEmpty, (JUndefined | JNull) => false
  | NotEmpty, JStr s => negb (String.eqb s "")
  | NotEmpty, _ => true
  | IsFloat None, JNum _ => true
  | IsFloat (Some g), JNum q => negb (Qle_bool q g)
  | IsFloat g, JStr s => isFloatString g s
  | IsFloat _, _ => false
  | IsBoolean, JBool _ => true
  | IsBoolean, JNum q => Qeq_bool q 0 || Qeq_bool q 1
  | IsBoolean, JStr s => existsb (String.eqb s) ["true"; "false"; "1"; "0"]
  | IsBoolean, _ => false
  end.

Definition field_value (c : Chain) (req : Request) : JsVal :=
  match ch_location c with
  | InBody => prop (body req) (ch_field c)
  | InParam => prop (params req) (ch_field c)
  end.

(** One chain: an optional chain is skipped when the field is
    [undefined]; otherwise every failing validator reports the field. *)
Definition run_chain (req : Request) (c : Chain) : list ValidationError :=
  let x := field_value c req in
  if ch_optional c && negb (is_defined x) then []
  else
    (λ _, {| ve_path := ch_field c; ve_msg := "Invalid value" |})
      <$> List.filter (λ v, negb (passes v x)) (ch_validators c).

Definition validationResult (chains : list Chain) (req : Request)
  : list ValidationError :=
  chains ≫= run_chain req.

(** Modelled from the spec: [routes/validators.js], which defines
    [handleValidation], is not among the sources.  The spec has the
    validator short-circuit with a client error (400) carrying the list of
    failures before the handler runs; with no failure the request goes on
    ([None]).  The message text is not fixed by the spec. *)
Definition handleValidation (chains : list Chain) (req : Request)
  : option Response :=
  match validationResult chains req with
  | [] => None
  | errs =>
      Some {| status := 400; ok := false; message := "Invalid value";
              data := Absent; errors := errs |}
  end.
End Validation.

(** ** The connection pool and the handler monad *)

(** The first element of what [pool.query] resolves to: the array of rows of
    a SELECT, or the result header of an INSERT, UPDATE or DELETE. *)
Inductive QueryResult :=
| ResultRows (rows : list (gmap string JsVal))
| ResultHeader (affectedRows insertId : Z).

Inductive Outcome :=
| Resolved (r : QueryResult)
| Rejected.

(** One call of [pool.query(sql, params)] and how it ended. *)
Record Event := {
  ev_sql : string;
  ev_params : list JsVal;
  ev_outcome : Outcome
}.

Record World (Store : Type) := {
  store : Store;
  log : list Event
}.
Arguments store {Store} _.
Arguments log {Store} _.

Definition Pool (Store : Type) : Type :=
  string → list JsVal → Store → Outcome * Store.

Inductive Completion (A : Type) :=
| Fulfilled (a : A)
| Threw.
Arguments Fulfilled {A} _.
Arguments Threw {A}.

(** An [async] computation: it either completes with a value or throws, and
    leaves a world behind in both cases. *)
Definition Async (Store A : Type) : Type :=
  World Store → Completion A * World Store.

Definition ret {Store A} (a : A) : Async Store A := λ w, (Fulfilled a, w).

Definition bind {Store A B} (m : Async Store A) (k : A → Async Store B)
  : Async Store B :=
  λ w, match m w with
       | (Fulfilled a, w') => k a w'
       | (Threw, w') => (Threw, w')
       end.

Notation "x <~ m ;; k" := (bind m (λ x, k))
  (at level 100, m at next level, right associativity).

(** [await pool.query(sql, params)]: the call is logged with its outcome. *)
Definition query {Store} (pool : Pool Store) (sql : string) (ps : list JsVal)
  : Async Store QueryResult :=
  λ w,
    let '(o, st) := pool sql ps (store w) in
    let w' := {| store := st;
                 log := (log w ++ [{| ev_sql := sql; ev_params := ps; ev_outcome := o |}])%list |} in
    match o with
    | Resolved r => (Fulfilled r, w')
    | Rejected => (Threw, w')
    end.

(** [try { ... } catch (err) { console.error(err); res.status(500).json(...) }] *)
Definition try_catch {Store} (m : Async Store Response) (on_error : Response)
  : World Store → Response * World Store :=
  λ w, match m w with
       | (Fulfilled r, w') => (r, w')
       | (Threw, w') => (on_error, w')
       end.

(** [rows.length === 0] *)
Definition length_is_zero (r : QueryResult) : bool :=
  match r with ResultRows [] => true | _ => false end.

(** [rows[0]] *)
Definition first_row (r : QueryResult) : Payload :=
  match r with ResultRows (x :: _) => OneRow x | _ => Absent end.

(** [result.affectedRows === 0] *)
Definition affectedRows_is_zero (r : QueryResult) : bool :=
  match r with ResultHeader a _ => (a =? 0)%Z | _ => false end.

(** [result.insertId] *)
Definition insertId (r : QueryResult) : JsVal :=
  match r with ResultHeader _ i => JInt i | _ => JUndefined end.

(** [data: rows] *)
Definition whole (r : QueryResult) : Payload :=
  match r with
  | ResultRows l => RowArray l
  | ResultHeader a i => HeaderObject a i
  end.

(** ** The route modules *)

Section Routes.
Context {Store : Type}.
(** What the string-level float check of the validation library answers. *)
Variable isFloatString : option Q → string → bool.
(** [getPool] of [config/db.js]: it hands out the pool, or throws. *)
Variable getPool : Store → option (Pool Store).

Definition await_getPool : Async Store (Pool Store) :=
  λ w, match getPool (store w) with
       | Some pool => (Fulfilled pool, w)
       | None => (Threw, w)
       end.

Definition Handler : Type := Request → World Store → Response * World Store.

(** [router.METHOD(path, ...chains, handleValidation, handler)] *)
Definition route (chains : list Chain) (handler : Handler) : Handler :=
  λ req w,
    match handleValidation isFloatString chains req with
    | Some failure => (failure, w)
    | None => handler req w
    end.

(** *** routes/categorias.routes.js *)

Definition categorias_get_all : Handler :=
  route [] (λ _req, try_catch (
    pool <~ await_getPool ;;
    rows <~ query pool
      "SELECT id, nombre, created_at, updated_at FROM categorias ORDER BY id DESC" [] ;;
    ret (json 200 true "Consulta realizada correctamente" (whole rows)))
    (json 500 false "Error listando categorías" Absent)).

Definition categorias_get_by_id : Handler :=
  route [param "id" |> isInt] (λ req, try_catch (
    pool <~ await_getPool ;;
    rows <~ query pool
      "SELECT id, nombre, created_at, updated_at FROM categorias WHERE id = ?"
      [prop (params req) "id"] ;;
    if length_is_zero rows then
      ret (json 404 false "Categoría no encontrada" Absent)
    else
      ret (json 200 true "Consulta realizada correctamente" (first_row rows)))
    (json 500 false "Error obteniendo categoría" Absent)).

Definition categorias_post : Handler :=
  route [body_ "nombre" |> isString |> notEmpty] (λ req, try_catch (
    let nombre := prop (body req) "nombre" in
    pool <~ await_getPool ;;
    result <~ query pool "INSERT INTO categorias (nombre) VALUES (?)" [nombre] ;;
    rows <~ query pool
      "SELECT id, nombre, created_at, updated_at FROM categorias WHERE id = ?"
      [insertId result] ;;
    ret (json 201 true "Categoría creada" (first_row rows)))
    (json 500 false "Error insertando categoría" Absent)).

Definition categorias_put : Handler :=
  route [param "id" |> isInt;
         body_ "nombre" |> optional |> isString |> notEmpty] (λ req, try_catch (
    let id := prop (params req) "id" in
    let nombre := prop (body req) "nombre" in
    if negb (is_defined nombre) then
      ret (json 400 false "Nada para actualizar" Absent)
    else
      pool <~ await_getPool ;;
      result <~ query pool "UPDATE categorias SET nombre = ? WHERE id = ?" [nombre; id] ;;
      if affectedRows_is_zero result then
        ret (json 404 false "Categoría no encontrada" Absent)
      else
        rows <~ query pool
          "SELECT id, nombre, created_at, updated_at FROM categorias WHERE id = ?" [id] ;;
        ret (json 200 true "Categoría actualizada" (first_row rows)))
    (json 500 false "Error actualizando categoría" Absent)).

Definition categorias_delete : Handler :=
  route [param "id" |> isInt] (λ req, try_catch (
    pool <~ await_getPool ;;
    result <~ query pool "DELETE FROM categorias WHERE id = ?" [prop (params req) "id"] ;;
    if affectedRows_is_zero result then
      ret (json 404 false "Categoría no encontrada" Absent)
    else
      ret (json 200 true "Categoría eliminada" Absent))
    (json 500 false "Error eliminando categoría" Absent)).

(** *** routes/productos.routes.js *)

Definition productos_get_all : Handler :=
  route [] (λ _req, try_catch (
    pool <~ await_getPool ;;
    rows <~ query pool
      "SELECT p.id, p.categoria_id, c.nombre AS categoria, p.nombre, p.descripcion, p.precio, p.disponible, p.created_at, p.updated_at FROM productos p JOIN categorias c ON p.categoria_id = c.id ORDER BY p.id DESC" [] ;;
    ret (json 200 true "Consulta realizada correctamente" (whole rows)))
    (json 500 false "Error listando productos" Absent)).

Definition productos_get_by_id : Handler :=
  route [param "id" |> isInt] (λ req, try_catch (
    pool <~ await_getPool ;;
    rows <~ query pool
      "SELECT p.id, p.categoria_id, c.nombre AS categoria, p.nombre, p.descripcion, p.precio, p.disponible, p.created_at, p.updated_at FROM productos p JOIN categorias c ON p.categoria_id = c.id WHERE p.id = ?"
      [prop (params req) "id"] ;;
    if length_is_zero rows then
      ret (json 404 false "Producto no encontrado" Absent)
    else
      ret (json 200 true "Consulta realizada correctamente" (first_row rows)))
    (json 500 false "Error obteniendo producto" Absent)).

Definition productos_post : Handler :=
  route [body_ "categoria_id" |> isInt;
         body_ "nombre" |> isString |> notEmpty;
         body_ "precio" |> isFloat;
         body_ "descripcion" |> optional |> isString;
         body_ "disponible" |> optional |> isBoolean] (λ req, try_catch (
    let categoria_id := prop (body req) "categoria_id" in
    let nombre := prop (body req) "nombre" in
    let descripcion := prop (body req) "descripcion" in
    let precio := prop (body req) "precio" in
    let disponible := prop (body req) "disponible" in
    pool <~ await_getPool ;;
    result <~ query pool
      "INSERT INTO productos (categoria_id, nombre, descripcion, precio, disponible) VALUES (?, ?, ?, ?, ?)"
      [categoria_id; nombre; nullish descripcion JNull; precio; nullish disponible (JInt 1)] ;;
    rows <~ query pool
      "SELECT p.id, p.categoria_id, c.nombre AS categoria, p.nombre, p.descripcion, p.precio, p.disponible, p.created_at, p.updated_at FROM productos p JOIN categorias c ON p.categoria_id = c.id WHERE p.id = ?"
      [insertId result] ;;
    ret (json 201 true "Producto creado" (first_row rows)))
    (json 500 false "Error insertando producto" Absent)).

Definition allowedFields : list string :=
  ["categoria_id"; "nombre"; "descripcion"; "precio"; "disponible"].

(** One turn of [for (const field of allowedFields)]. *)
Definition productos_put_step (bodyData : gmap string JsVal)
    (acc : list string * list JsVal) (field : string)
  : list string * list JsVal :=
  let '(sets, values) := acc in
  if is_defined (prop bodyData field) then
    ((sets ++ [field +:+ " = ?"])%list,
     (* boolean -> tinyint conversion *)
     if String.eqb field "disponible" then
       (values ++ [if truthy (prop bodyData field) then JInt 1 else JInt 0])%list
     else
       (values ++ [prop bodyData field])%list)
  else (sets, values).

Definition productos_put : Handler :=
  route [param "id" |> isInt;
         body_ "categoria_id" |> optional |> isInt;
         body_ "nombre" |> optional |> isString |> notEmpty;
         body_ "precio" |> optional |> isFloat;
         body_ "descripcion" |> optional |> isString;
         body_ "disponible" |> optional |> isBoolean] (λ req, try_catch (
    let id := prop (params req) "id" in
    let bodyData := body req in
    let '(sets, values) := foldl (productos_put_step bodyData) ([], []) allowedFields in
    if (length sets =? 0)%nat then
      ret (json 400 false "Nada para actualizar" Absent)
    else
      let values := (values ++ [id])%list in
      pool <~ await_getPool ;;
      result <~ query pool
        ("UPDATE productos SET " +:+ join ", " sets +:+ " WHERE id = ?") values ;;
      if affectedRows_is_zero result then
        ret (json 404 false "Producto no encontrado" Absent)
      else
        rows <~ query pool
          "SELECT p.id, p.categoria_id, c.nombre AS categoria, p.nombre, p.descripcion, p.precio, p.disponible, p.created_at, p.updated_at FROM productos p JOIN categorias c ON p.categoria_id = c.id WHERE p.id = ?"
          [id] ;;
        ret (json 200 true "Producto actualizado" (first_row rows)))
    (json 500 false "Error actualizando producto" Absent)).

Definition productos_delete : Handler :=
  route [param "id" |> isInt] (λ req, try_catch (
    let id := prop (params req) "id" in
    pool <~ await_getPool ;;
    result <~ query pool "DELETE FROM productos WHERE id = ?" [id] ;;
    if affectedRows_is_zero result then
      ret (json 404 false "Producto no encontrado" Absent)
    else
      ret (json 200 true "Producto eliminado" Absent))
    (json 500 false "Error eliminando producto" Absent)).

(** *** routes/ingredientes.routes.js *)

Definition ingredientes_get_all : Handler :=
  route [] (λ _req, try_catch (
    pool <~ await_getPool ;;
    rows <~ query pool
      "SELECT id, nombre, perecedero, created_at, updated_at FROM ingredientes ORDER BY id DESC" [] ;;
    ret (json 200 true "Consulta realizada correctamente" (whole rows)))
    (json 500 false "Error listando ingredientes" Absent)).

Definition ingredientes_get_by_id : Handler :=
  route [param "id" |> isInt] (λ req, try_catch (
    pool <~ await_getPool ;;
    rows <~ query pool
      "SELECT id, nombre, perecedero, created_at, updated_at FROM ingredientes WHERE id = ?"
      [prop (params req) "id"] ;;
    if length_is_zero rows then
      ret (json 404 false "Ingrediente no encontrado" Absent)
    else
      ret (json 200 true "Consulta realizada correctamente" (first_row rows)))
    (json 500 false "Error obteniendo ingrediente" Absent)).

Definition ingredientes_post : Handler :=
  route [body_ "nombre" |> isString |> notEmpty;
         body_ "perecedero" |> optional |> isBoolean] (λ req, try_catch (
    let nombre := prop (body req) "nombre" in
    let perecedero := prop (body req) "perecedero" in
    pool <~ await_getPool ;;
    result <~ query pool "INSERT INTO ingredientes (nombre, perecedero) VALUES (?, ?)"
      [nombre;
       if is_defined perecedero then (if truthy perecedero then JInt 1 else JInt 0)
       else JInt 1] ;;
    rows <~ query pool
      "SELECT id, nombre, perecedero, created_at, updated_at FROM ingredientes WHERE id = ?"
      [insertId result] ;;
    ret (json 201 true "Ingrediente creado" (first_row rows)))
    (json 500 false "Error insertando ingrediente" Absent)).

Definition ingredientes_put : Handler :=
  route [param "id" |> isInt;
         body_ "nombre" |> optional |> isString |> notEmpty;
         body_ "perecedero" |> optional |> isBoolean] (λ req, try_catch (
    let id := prop (params req) "id" in
    let bodyData := body req in
    let '(sets, values) := ([], []) in
    let '(sets, values) :=
      if is_defined (prop bodyData "nombre") then
        ((sets ++ ["nombre = ?"])%list, (values ++ [prop bodyData "nombre"])%list)
      else (sets, values) in
    let '(sets, values) :=
      if is_defined (prop bodyData "perecedero") then
        ((sets ++ ["perecedero = ?"])%list,
         (values ++ [if truthy (prop bodyData "perecedero") then JInt 1 else JInt 0])%list)
      else (sets, values) in
    if (length sets =? 0)%nat then
      ret (json 400 false "Nada para actualizar" Absent)
    else
      let values := (values ++ [id])%list in
      pool <~ await_getPool ;;
      result <~ query pool
        ("UPDATE ingredientes SET " +:+ join ", " sets +:+ " WHERE id = ?") values ;;
      if affectedRows_is_zero result then
        ret (json 404 false "Ingrediente no encontrado" Absent)
      else
        rows <~ query pool
          "SELECT id, nombre, perecedero, created_at, updated_at FROM ingredientes WHERE id = ?"
          [id] ;;
        ret (json 200 true "Ingrediente actualizado" (first_row rows)))
    (json 500 false "Error actualizando ingrediente" Absent)).

Definition ingredientes_delete : Handler :=
  route [param "id" |> isInt] (λ req, try_catch (
    pool <~ await_getPool ;;
    result <~ query pool "DELETE FROM ingredientes WHERE id = ?" [prop (params req) "id"] ;;
    if affectedRows_is_zero result then
      ret (json 404 false "Ingrediente no encontrado" Absent)
    else
      ret (json 200 true "Ingrediente eliminado" Absent))
    (json 500 false "Error eliminando ingrediente" Absent)).

(** *** routes/producto_ingrediente.routes.js *)

Definition producto_ingrediente_get_all : Handler :=
  route [] (λ _req, try_catch (
    pool <~ await_getPool ;;
    rows <~ query pool
      "SELECT pi.id, pi.producto_id, p.nombre AS producto, pi.ingrediente_id, i.nombre AS ingrediente, pi.cantidad_usada, pi.created_at, pi.updated_at FROM producto_ingrediente pi JOIN productos p ON pi.producto_id = p.id JOIN ingredientes i ON pi.ingrediente_id = i.id ORDER BY pi.id DESC" [] ;;
    ret (json 200 true "Consulta realizada correctamente" (whole rows)))
    (json 500 false "Error listando relaciones" Absent)).

Definition producto_ingrediente_get_by_id : Handler :=
  route [param "id" |> isInt] (λ req, try_catch (
    pool <~ await_getPool ;;
    rows <~ query pool
      "SELECT pi.id, pi.producto_id, p.nombre AS producto, pi.ingrediente_id, i.nombre AS ingrediente, pi.cantidad_usada, pi.created_at, pi.updated_at FROM producto_ingrediente pi JOIN productos p ON pi.producto_id = p.id JOIN ingredientes i ON pi.ingrediente_id = i.id WHERE pi.id = ?"
      [prop (params req) "id"] ;;
    if length_is_zero rows then
      ret (json 404 false "Relación no encontrada" Absent)
    else
      ret (json 200 true "Consulta realizada correctamente" (first_row rows)))
    (json 500 false "Error obteniendo relación" Absent)).

Definition producto_ingrediente_post : Handler :=
  route [body_ "producto_id" |> isInt;
         body_ "ingrediente_id" |> isInt;
         body_ "cantidad_usada" |> isFloat_gt 0] (λ req, try_catch (
    let producto_id := prop (body req) "producto_id" in
    let ingrediente_id := prop (body req) "ingrediente_id" in
    let cantidad_usada := prop (body req) "cantidad_usada" in
    pool <~ await_getPool ;;
    result <~ query pool
      "INSERT INTO producto_ingrediente (producto_id, ingrediente_id, cantidad_usada) VALUES (?, ?, ?)"
      [producto_id; ingrediente_id; cantidad_usada] ;;
    rows <~ query pool
      "SELECT pi.id, pi.producto_id, p.nombre AS producto, pi.ingrediente_id, i.nombre AS ingrediente, pi.cantidad_usada, pi.created_at, pi.updated_at FROM producto_ingrediente pi JOIN productos p ON pi.producto_id = p.id JOIN ingredientes i ON pi.ingrediente_id = i.id WHERE pi.id = ?"
      [insertId result] ;;
    ret (json 201 true "Relación creada" (first_row rows)))
    (json 500 false "Error insertando relación" Absent)).

Definition producto_ingrediente_put : Handler :=
  route [param "id" |> isInt;
         body_ "producto_id" |> optional |> isInt;
         body_ "ingrediente_id" |> optional |> isInt;
         body_ "cantidad_usada" |> optional |> isFloat_gt 0] (λ req, try_catch (
    let id := prop (params req) "id" in
    let bodyData := body req in
    let '(sets, values) := ([], []) in
    let '(sets, values) :=
      if is_defined (prop bodyData "producto_id") then
        ((sets ++ ["producto_id = ?"])%list, (values ++ [prop bodyData "producto_id"])%list)
      else (sets, values) in
    let '(sets, values) :=
      if is_defined (prop bodyData "ingrediente_id") then
        ((sets ++ ["ingrediente_id = ?"])%list,
         (values ++ [prop bodyData "ingrediente_id"])%list)
      else (sets, values) in
    let '(sets, values) :=
      if is_defined (prop bodyData "cantidad_usada") then
        ((sets ++ ["cantidad_usada = ?"])%list,
         (values ++ [prop bodyData "cantidad_usada"])%list)
      else (sets, values) in
    if (length sets =? 0)%nat then
      ret (json 400 false "Nada para actualizar" Absent)
    else
      let values := (values ++ [id])%list in
      pool <~ await_getPool ;;
      result <~ query pool
        ("UPDATE producto_ingrediente SET " +:+ join ", " sets +:+ " WHERE id = ?") values ;;
      if affectedRows_is_zero result then
        ret (json 404 false "Relación no encontrada" Absent)
      else
        rows <~ query pool
          "SELECT pi.id, pi.producto_id, p.nombre AS producto, pi.ingrediente_id, i.nombre AS ingrediente, pi.cantidad_usada, pi.created_at, pi.updated_at FROM producto_ingrediente pi JOIN productos p ON pi.producto_id = p.id JOIN ingredientes i ON pi.ingrediente_id = i.id WHERE pi.id = ?"
          [id] ;;
        ret (json 200 true "Relación actualizada" (first_row rows)))
    (json 500 false "Error actualizando relación" Absent)).

Definition producto_ingrediente_delete : Handler :=
  route [param "id" |> isInt] (λ req, try_catch (
    pool <~ await_getPool ;;
    result <~ query pool "DELETE FROM producto_ingrediente WHERE id = ?"
      [prop (params req) "id"] ;;
    if affectedRows_is_zero result then
      ret (json 404 false "Relación no encontrada" Absent)
    else
      ret (json 200 true "Relación eliminada" Absent))
    (json 500 false "Error eliminando relación" Absent)).
End Routes.

(** *** server.js: the routers mounted under [/api] *)

Inductive Resource := Categoria | Producto | Ingrediente | ProductoIngrediente.

Inductive Operation := List_ | GetById | Create | PartialUpdate | Delete_.

Definition api {Store} (isFloatString : option Q → string → bool)
    (getPool : Store → option (Pool Store)) (r : Resource) (op : Operation)
  : Request → World Store → Response * World Store :=
  match r, op with
  | Categoria, List_ => categorias_get_all isFloatString getPool
  | Categoria, GetById => categorias_get_by_id isFloatString getPool
  | Categoria, Create => categorias_post isFloatString getPool
  | Categoria, PartialUpdate => categorias_put isFloatString getPool
  | Categoria, Delete_ => categorias_delete isFloatString getPool
  | Producto, List_ => productos_get_all isFloatString getPool
  | Producto, GetById => productos_get_by_id isFloatString getPool
  | Producto, Create => productos_post isFloatString getPool
  | Producto, PartialUpdate => productos_put isFloatString getPool
  | Producto, Delete_ => productos_delete isFloatString getPool
  | Ingrediente, List_ => ingredientes_get_all isFloatString getPool
  | Ingrediente, GetById => ingredientes_get_by_id isFloatString getPool
  | Ingrediente, Create => ingredientes_post isFloatString getPool
  | Ingrediente, PartialUpdate => ingredientes_put isFloatString getPool
  | Ingrediente, Delete_ => ingredientes_delete isFloatString getPool
  | ProductoIngrediente, List_ => producto_ingrediente_get_all isFloatString getPool
  | ProductoIngrediente, GetById => producto_ingrediente_get_by_id isFloatString getPool
  | ProductoIngrediente, Create => producto_ingrediente_post isFloatString getPool
  | ProductoIngrediente, PartialUpdate => producto_ingrediente_put isFloatString getPool
  | ProductoIngrediente, Delete_ => producto_ingrediente_delete isFloatString getPool
  end.

(** ** An in-memory relational store

    The database server is an external collaborator.  [Mem] gives the
    statements the routes issue their meaning over four tables keyed by
    their primary key.

    Modelled from the spec: the schema of the tables is not among the
    sources.  The tables and columns are the ones the statements of the
    routes name; the key is generated on insert and the two timestamps are
    assigned by the server, as the data model of the spec has it.  The
    foreign keys of the data model ([categoria_id], [producto_id],
    [ingrediente_id]) are enforced on write: an INSERT or an UPDATE that
    gives one of them a value that is the key of no parent row fails, which
    the routes surface as a generic write failure.  What a DELETE of a
    referenced parent does the spec leaves open; here it goes through and
    nothing is cascaded, so a row can outlive its parent.  Values are kept
    as the driver received them; the conversion to a column type is not
    modelled. *)

Module Mem.

Record Table := {
  rows : gmap Z (gmap string JsVal);
  auto_increment : Z
}.

Record Db := {
  categorias : Table;
  productos : Table;
  ingredientes : Table;
  producto_ingrediente : Table;
  now : JsVal
}.

Definition table (r : Resource) (db : Db) : Table :=
  match r with
  | Categoria => categorias db
  | Producto => productos db
  | Ingrediente => ingredientes db
  | ProductoIngrediente => producto_ingrediente db
  end.

Definition with_table (r : Resource) (t : Table) (db : Db) : Db :=
  match r with
  | Categoria =>
      {| categorias := t; productos := productos db; ingredientes := ingredientes db;
         producto_ingrediente := producto_ingrediente db; now := now db |}
  | Producto =>
      {| categorias := categorias db; productos := t; ingredientes := ingredientes db;
         producto_ingrediente := producto_ingrediente db; now := now db |}
  | Ingrediente =>
      {| categorias := categorias db; productos := productos db; ingredientes := t;
         producto_ingrediente := producto_ingrediente db; now := now db |}
  | ProductoIngrediente =>
      {| categorias := categorias db; productos := productos db;
         ingredientes := ingredientes db; producto_ingrediente := t; now := now db |}
  end.

Definition table_name (r : Resource) : string :=
  match r with
  | Categoria => "categorias"
  | Producto => "productos"
  | Ingrediente => "ingredientes"
  | ProductoIngrediente => "producto_ingrediente"
  end.

(** The columns a client can write (all but the key and the timestamps). *)
Definition data_columns (r : Resource) : list string :=
  match r with
  | Categoria => ["nombre"]
  | Producto => ["categoria_id"; "nombre"; "descripcion"; "precio"; "disponible"]
  | Ingrediente => ["nombre"; "perecedero"]
  | ProductoIngrediente => ["producto_id"; "ingrediente_id"; "cantidad_usada"]
  end.

(** *** Recognising the statements *)

Inductive Statement :=
| SelectAll (r : Resource)
| SelectById (r : Resource)
| InsertInto (r : Resource)
| UpdateById (r : Resource) (cols : list string)
| DeleteById (r : Resource).

Definition select_list (r : Resource) : string :=
  match r with
  | Categoria => "SELECT id, nombre, created_at, updated_at FROM categorias"
  | Producto =>
      "SELECT p.id, p.categoria_id, c.nombre AS categoria, p.nombre, p.descripcion, p.precio, p.disponible, p.created_at, p.updated_at FROM productos p JOIN categorias c ON p.categoria_id = c.id"
  | Ingrediente => "SELECT id, nombre, perecedero, created_at, updated_at FROM ingredientes"
  | ProductoIngrediente =>
      "SELECT pi.id, pi.producto_id, p.nombre AS producto, pi.ingrediente_id, i.nombre AS ingrediente, pi.cantidad_usada, pi.created_at, pi.updated_at FROM producto_ingrediente pi JOIN productos p ON pi.producto_id = p.id JOIN ingredientes i ON pi.ingrediente_id = i.id"
  end.

(** The name the key goes by in the statement: qualified where the
    projection joins. *)
Definition key_name (r : Resource) : string :=
  match r with
  | Categoria | Ingrediente => "id"
  | Producto => "p.id"
  | ProductoIngrediente => "pi.id"
  end.

Definition placeholders (n : nat) : string := join ", " (replicate n "?").

Definition fixed_statements : list (string * Statement) :=
  r ← [Categoria; Producto; Ingrediente; ProductoIngrediente];
  [ (select_list r +:+ " ORDER BY " +:+ key_name r +:+ " DESC", SelectAll r);
    (select_list r +:+ " WHERE " +:+ key_name r +:+ " = ?", SelectById r);
    ("INSERT INTO " +:+ table_name r +:+ " (" +:+ join ", " (data_columns r)
       +:+ ") VALUES (" +:+ placeholders (length (data_columns r)) +:+ ")",
     InsertInto r);
    ("DELETE FROM " +:+ table_name r +:+ " WHERE id = ?", DeleteById r) ].

Fixpoint strip_prefix (p s : string) : option string :=
  match p, s with
  | EmptyString, _ => Some s
  | String a p', String b s' => if Ascii.eqb a b then strip_prefix p' s' else None
  | String _ _, EmptyString => None
  end.

Definition strip_suffix (p s : string) : option string :=
  let n := (String.length s - String.length p)%nat in
  if String.eqb (substring n (String.length p) s) p
  then Some (substring 0 n s) else None.

(** The pieces of [s] between the separators [", "]. *)
Fixpoint split_comma (cur s : string) : list string :=
  match s with
  | EmptyString => [cur]
  | String ","%char (String " "%char rest) => cur :: split_comma "" rest
  | String c rest => split_comma (cur +:+ String c EmptyString) rest
  end.

Definition parse_update (r : Resource) (sql : string) : option Statement :=
  rest ← strip_prefix ("UPDATE " +:+ table_name r +:+ " SET ") sql;
  assignments ← strip_suffix " WHERE id = ?" rest;
  cols ← mapM (strip_suffix " = ?") (split_comma "" assignments);
  if forallb (λ c, existsb (String.eqb c) (data_columns r)) cols
  then Some (UpdateById r cols) else None.

Fixpoint assoc (sql : string) (l : list (string * Statement)) : option Statement :=
  match l with
  | [] => None
  | (text, st) :: l' => if String.eqb sql text then Some st else assoc sql l'
  end.

Definition parse_statement (sql : string) : option Statement :=
  match assoc sql fixed_statements with
  | Some st => Some st
  | None =>
      match parse_update Categoria sql with
      | Some st => Some st
      | None =>
      match parse_update Producto sql with
      | Some st => Some st
      | None =>
      match parse_update Ingrediente sql with
      | Some st => Some st
      | None => parse_update ProductoIngrediente sql
      end end end
  end.

(** *** What the statements do *)

(** The integer a parameter or a stored value stands for where the server
    compares it with an integer column. *)
Definition sql_int (v : JsVal) : option Z :=
  match v with
  | JNum q => if Q_is_int q then Some (Qnum q / Zpos (Qden q)) else None
  | JStr s => int_of_string s
  | JBool b => Some (if b then 1 else 0)
  | JUndefined | JNull => None
  end.

(** The driver sends [undefined] as NULL. *)
Definition sql_value (v : JsVal) : JsVal :=
  match v with JUndefined => JNull | _ => v end.

(** A column of a stored row; a column never written is NULL. *)
Definition col (row : gmap string JsVal) (c : string) : JsVal :=
  default JNull (row !! c).

Definition cells (cols : list string) (row : gmap string JsVal)
  : list (string * JsVal) :=
  (λ c, (c, col row c)) <$> cols.

(** The row of the read projection for the stored row [row] with key [n]:
    the inner joins drop it when a foreign key finds no parent. *)
Definition project (r : Resource) (db : Db) (n : Z) (row : gmap string JsVal)
  : option (gmap string JsVal) :=
  match r with
  | Categoria =>
      Some (list_to_map
        (("id", JInt n) :: cells ["nombre"; "created_at"; "updated_at"] row))
  | Producto =>
      k ← sql_int (col row "categoria_id");
      c ← rows (categorias db) !! k;
      Some (list_to_map
        (("id", JInt n) :: ("categoria", col c "nombre")
         :: cells ["categoria_id"; "nombre"; "descripcion"; "precio"; "disponible";
                   "created_at"; "updated_at"] row))
  | Ingrediente =>
      Some (list_to_map
        (("id", JInt n) :: cells ["nombre"; "perecedero"; "created_at"; "updated_at"] row))
  | ProductoIngrediente =>
      kp ← sql_int (col row "producto_id");
      p ← rows (productos db) !! kp;
      ki ← sql_int (col row "ingrediente_id");
      i ← rows (ingredientes db) !! ki;
      Some (list_to_map
        (("id", JInt n) :: ("producto", col p "nombre") :: ("ingrediente", col i "nombre")
         :: cells ["producto_id"; "ingrediente_id"; "cantidad_usada";
                   "created_at"; "updated_at"] row))
  end.

Definition joined (r : Resource) (db : Db) : list (Z * gmap string JsVal) :=
  omap (λ '(n, row), (n,.) <$> project r db n row) (map_to_list (rows (table r db))).

(** [ORDER BY id DESC] *)
Definition id_desc : relation (Z * gmap string JsVal) := λ a b, (b.1 ≤ a.1)%Z.

#[global] Instance id_desc_dec : RelDecision id_desc.
Proof. intros a b. unfold id_desc. apply _. Defined.

Definition select_all (r : Resource) (db : Db) : list (gmap string JsVal) :=
  (merge_sort id_desc (joined r db)).*2.

(** [WHERE id = ?] *)
Definition select_by_id (r : Resource) (db : Db) (idv : JsVal)
  : list (gmap string JsVal) :=
  match sql_int idv with
  | Some n =>
      match rows (table r db) !! n with
      | Some row => option_list (project r db n row)
      | None => []
      end
  | None => []
  end.

Definition assign (row : gmap string JsVal) (cv : string * JsVal)
  : gmap string JsVal :=
  <[cv.1 := sql_value cv.2]> row.

(** The table a column refers to, when it is a foreign key. *)
Definition parent_of (r : Resource) (c : string) : option Resource :=
  match r with
  | Producto => if String.eqb c "categoria_id" then Some Categoria else None
  | ProductoIngrediente =>
      if String.eqb c "producto_id" then Some Producto
      else if String.eqb c "ingrediente_id" then Some Ingrediente
      else None
  | Categoria | Ingrediente => None
  end.

(** [v] is the key of a row of [r]. *)
Definition is_key_of (r : Resource) (db : Db) (v : JsVal) : bool :=
  match sql_int v with
  | Some k => if rows (table r db) !! k is Some _ then true else false
  | None => false
  end.

(** Every foreign key among the columns written is given the key of a
    parent row. *)
Definition references_hold (r : Resource) (db : Db) (cvs : list (string * JsVal))
  : bool :=
  forallb (λ cv, match parent_of r cv.1 with
                 | Some parent => is_key_of parent db cv.2
                 | None => true
                 end) cvs.

Definition stamp (c : string) (db : Db) (row : gmap string JsVal)
  : gmap string JsVal :=
  <[c := now db]> row.

Definition run (st : Statement) (ps : list JsVal) (db : Db) : Outcome * Db :=
  match st with
  | SelectAll r =>
      match ps with
      | [] => (Resolved (ResultRows (select_all r db)), db)
      | _ => (Rejected, db)
      end
  | SelectById r =>
      match ps with
      | [idv] => (Resolved (ResultRows (select_by_id r db idv)), db)
      | _ => (Rejected, db)
      end
  | InsertInto r =>
      let t := table r db in
      let n := auto_increment t in
      if negb (length ps =? length (data_columns r))%nat then (Rejected, db)
      else if rows t !! n is Some _ then (Rejected, db)
      else if negb (references_hold r db (zip (data_columns r) ps)) then (Rejected, db)
      else
        let row := stamp "updated_at" db (stamp "created_at" db
                     (foldl assign ∅ (zip (data_columns r) ps))) in
        (Resolved (ResultHeader 1 n),
         with_table r {| rows := <[n := row]> (rows t); auto_increment := n + 1 |} db)
  | UpdateById r cols =>
      let t := table r db in
      match ps !! length cols with
      | Some idv =>
          if negb (length ps =? S (length cols))%nat then (Rejected, db)
          else
            match n ← sql_int idv; row ← rows t !! n; Some (n, row) with
            | Some (n, row) =>
                if negb (references_hold r db (zip cols ps)) then (Rejected, db)
                else
                let row' := stamp "updated_at" db (foldl assign row (zip cols ps)) in
                (Resolved (ResultHeader 1 0),
                 with_table r {| rows := <[n := row']> (rows t);
                                 auto_increment := auto_increment t |} db)
            | None => (Resolved (ResultHeader 0 0), db)
            end
      | None => (Rejected, db)
      end
  | DeleteById r =>
      let t := table r db in
      match ps with
      | [idv] =>
          match n ← sql_int idv; row ← rows t !! n; Some n with
          | Some n =>
              (Resolved (ResultHeader 1 0),
               with_table r {| rows := delete n (rows t);
                               auto_increment := auto_increment t |} db)
          | None => (Resolved (ResultHeader 0 0), db)
          end
      | _ => (Rejected, db)
      end
  end.

(** A statement outside the ones above is refused. *)
Definition pool : Pool Db :=
  λ sql ps db,
    match parse_statement sql with
    | Some st => run st ps db
    | None => (Rejected, db)
    end.

Definition getPool : Db → option (Pool Db) := λ _, Some pool.

Definition empty_table : Table := {| rows := ∅; auto_increment := 1 |}.

Definition empty : Db :=
  {| categorias := empty_table; productos := empty_table; ingredientes := empty_table;
     producto_ingrediente := empty_table; now := JStr "2025-02-14T12:00:00.000Z" |}.
End Mem.

(** ** The protocol in the words of the specification *)

(** The fields of a resource a client may update (its attributes other than
    the key and the server-assigned timestamps). *)
Definition updatable_fields (r : Resource) : list string :=
  match r with
  | Categoria => ["nombre"]
  | Producto => ["categoria_id"; "nombre"; "descripcion"; "precio"; "disponible"]
  | Ingrediente => ["nombre"; "perecedero"]
  | ProductoIngrediente => ["producto_id"; "ingrediente_id"; "cantidad_usada"]
  end.

(** A field is present in a body when reading it does not give [undefined]. *)
Definition supplied (b : gmap string JsVal) (f : string) : bool :=
  is_defined (prop b f).

(** The recognised fields present in a body, in the order of the allow-list. *)
Definition set_clause (r : Resource) (b : gmap string JsVal) : list string :=
  List.filter (supplied b) (updatable_fields r).

Definition boolean_field (r : Resource) (f : string) : bool :=
  match r with
  | Producto => String.eqb f "disponible"
  | Ingrediente => String.eqb f "perecedero"
  | _ => false
  end.

(** The coercion applied before persistence: boolean to 0/1. *)
Definition coerced (r : Resource) (b : gmap string JsVal) (f : string) : JsVal :=
  if boolean_field r f then (if truthy (prop b f) then JInt 1 else JInt 0)
  else prop b f.

Definition assignment (f : string) : string := f +:+ " = ?".

Definition update_text (r : Resource) (cols : list string) : string :=
  "UPDATE " +:+ Mem.table_name r +:+ " SET " +:+ join ", " (assignment <$> cols)
    +:+ " WHERE id = ?".

(** The statement of Get-by-id: the read projection filtered by key. *)
Definition projection_by_id (r : Resource) : string :=
  Mem.select_list r +:+ " WHERE " +:+ Mem.key_name r +:+ " = ?".

Definition update_rules (r : Resource) : list Chain :=
  match r with
  | Categoria =>
      [param "id" |> isInt; body_ "nombre" |> optional |> isString |> notEmpty]
  | Producto =>
      [param "id" |> isInt;
       body_ "categoria_id" |> optional |> isInt;
       body_ "nombre" |> optional |> isString |> notEmpty;
       body_ "precio" |> optional |> isFloat;
       body_ "descripcion" |> optional |> isString;
       body_ "disponible" |> optional |> isBoolean]
  | Ingrediente =>
      [param "id" |> isInt;
       body_ "nombre" |> optional |> isString |> notEmpty;
       body_ "perecedero" |> optional |> isBoolean]
  | ProductoIngrediente =>
      [param "id" |> isInt;
       body_ "producto_id" |> optional |> isInt;
       body_ "ingrediente_id" |> optional |> isInt;
       body_ "cantidad_usada" |> optional |> isFloat_gt 0]
  end.

Definition not_found_message (r : Resource) : string :=
  match r with
  | Categoria => "Categoría no encontrada"
  | Producto => "Producto no encontrado"
  | Ingrediente => "Ingrediente no encontrado"
  | ProductoIngrediente => "Relación no encontrada"
  end.

Definition updated_message (r : Resource) : string :=
  match r with
  | Categoria => "Categoría actualizada"
  | Producto => "Producto actualizado"
  | Ingrediente => "Ingrediente actualizado"
  | ProductoIngrediente => "Relación actualizada"
  end.

Definition update_failed_message (r : Resource) : string :=
  match r with
  | Categoria => "Error actualizando categoría"
  | Producto => "Error actualizando producto"
  | Ingrediente => "Error actualizando ingrediente"
  | ProductoIngrediente => "Error actualizando relación"
  end.

(** Partial Update as the specification words it, for any resource:
    validate; build the SET clause from exactly the fields present; with no
    field present answer "nothing to update" without touching storage;
    execute the UPDATE; zero affected rows is "not found"; otherwise re-read
    with the projection of Get-by-id. *)
Definition partial_update {Store} (isFloatString : option Q → string → bool)
    (getPool : Store → option (Pool Store)) (r : Resource)
  : Request → World Store → Response * World Store :=
  route isFloatString (update_rules r) (λ req, try_catch (
    let id := prop (params req) "id" in
    let cols := set_clause r (body req) in
    match cols with
    | [] => ret (json 400 false "Nada para actualizar" Absent)
    | _ =>
        pool <~ await_getPool getPool ;;
        result <~ query pool (update_text r cols)
                    ((coerced r (body req) <$> cols) ++ [id])%list ;;
        if affectedRows_is_zero result then
          ret (json 404 false (not_found_message r) Absent)
        else
          rows <~ query pool (projection_by_id r) [id] ;;
          ret (json 200 true (updated_message r) (first_row rows))
    end)
    (json 500 false (update_failed_message r) Absent)).

(** The path parameter [id] is the decimal string of the integer [n]. *)
Definition has_int_id (req : Request) (n : Z) : Prop :=
  ∃ s, params req !! "id" = Some (JStr s) ∧ int_of_string s = Some n.

(** The events a run appended to the log. *)
Definition issued {Store} (w w' : World Store) (evs : list Event) : Prop :=
  log w' = (log w ++ evs)%list.

(** The UPDATE a Partial Update issues and the re-read that follows it. *)
Definition update_event (r : Resource) (req : Request) (o : Outcome) : Event :=
  {| ev_sql := update_text r (set_clause r (body req));
     ev_params := ((coerced r (body req) <$> set_clause r (body req))
                    ++ [prop (params req) "id"])%list;
     ev_outcome := o |}.

Definition reread_event (r : Resource) (key : JsVal) (o : Outcome) : Event :=
  {| ev_sql := projection_by_id r; ev_params := [key]; ev_outcome := o |}.

Definition delete_text (r : Resource) : string :=
  "DELETE FROM " +:+ Mem.table_name r +:+ " WHERE id = ?".

Definition deleted_message (r : Resource) : string :=
  match r with
  | Categoria => "Categoría eliminada"
  | Producto => "Producto eliminado"
  | Ingrediente => "Ingrediente eliminado"
  | ProductoIngrediente => "Relación eliminada"
  end.

Definition insert_text (r : Resource) : string :=
  "INSERT INTO " +:+ Mem.table_name r +:+ " (" +:+ join ", " (updatable_fields r)
    +:+ ") VALUES (" +:+ join ", " (replicate (length (updatable_fields r)) "?") +:+ ")".

(** The values a Create hands to the INSERT, one per column. *)
Definition create_values (r : Resource) (b : gmap string JsVal) : list JsVal :=
  match r with
  | Categoria => [prop b "nombre"]
  | Producto =>
      [prop b "categoria_id"; prop b "nombre"; nullish (prop b "descripcion") JNull;
       prop b "precio"; nullish (prop b "disponible") (JInt 1)]
  | Ingrediente =>
      [prop b "nombre";
       if is_defined (prop b "perecedero")
       then (if truthy (prop b "perecedero") then JInt 1 else JInt 0)
       else JInt 1]
  | ProductoIngrediente =>
      [prop b "producto_id"; prop b "ingrediente_id"; prop b "cantidad_usada"]
  end.

Definition insert_event (r : Resource) (req : Request) (o : Outcome) : Event :=
  {| ev_sql := insert_text r; ev_params := create_values r (body req); ev_outcome := o |}.

Definition created_message (r : Resource) : string :=
  match r with
  | Categoria => "Categoría creada"
  | Producto => "Producto creado"
  | Ingrediente => "Ingrediente creado"
  | ProductoIngrediente => "Relación creada"
  end.

Definition success_status (op : Operation) : Z :=
  match op with Create => 201 | _ => 200 end.

(** The statement of List: the read projection, newest key first. *)
Definition list_text (r : Resource) : string :=
  Mem.select_list r +:+ " ORDER BY " +:+ Mem.key_name r +:+ " DESC".

Definition list_event (r : Resource) (o : Outcome) : Event :=
  {| ev_sql := list_text r; ev_params := []; ev_outcome := o |}.

(** [pool] answered the call [ev] in store [st] and left [st']. *)
Definition answered {Store} (pool : Pool Store) (ev : Event) (st st' : Store) : Prop :=
  pool (ev_sql ev) (ev_params ev) st = (ev_outcome ev, st').

(** The number the float check reads in a value: a number as it is, a
    string through the pattern of the library. *)
Definition quantity (v : JsVal) : option Q :=
  match v with
  | JNum q => Some q
  | JStr s => t ← float_text s; float_value t
  | _ => None
  end.

(** A stored row of [r] one of whose foreign keys finds no parent row. *)
Definition parent_missing (r : Resource) (db : Mem.Db) (row : gmap string JsVal)
  : Prop :=
  match r with
  | Producto =>
      ∀ k, Mem.sql_int (Mem.col row "categoria_id") = Some k →
           Mem.rows (Mem.categorias db) !! k = None
  | ProductoIngrediente =>
      (∀ k, Mem.sql_int (Mem.col row "producto_id") = Some k →
            Mem.rows (Mem.productos db) !! k = None)
      ∨ (∀ k, Mem.sql_int (Mem.col row "ingrediente_id") = Some k →
              Mem.rows (Mem.ingredientes db) !! k = None)
  | Categoria | Ingrediente => False
  end.

(** "List returns the array of all rows": every stored row of the table
    appears in the data under its id. *)
Definition lists_all_rows (isFloatString : option Q → string → bool)
    (r : Resource) (w : World Mem.Db) : Prop :=
  ∃ l,
    data (api isFloatString Mem.getPool r List_ {| params := ∅; body := ∅ |} w).1
    = RowArray l ∧
    ∀ n, is_Some (Mem.rows (Mem.table r (store w)) !! n) →
         ∃ x, x ∈ l ∧ x !! "id" = Some (JInt n).

(** ** Sample requests *)

(** The float check of the samples is the library's. *)
Definition sample_float_check : option Q → string → bool := validator_isFloat.

Definition request (id : string) (fields : list (string * JsVal)) : Request :=
  {| params := {[ "id" := JStr id ]}; body := list_to_map fields |}.

Definition fresh_world : World Mem.Db := {| store := Mem.empty; log := [] |}.

Definition sample (r : Resource) (op : Operation) (req : Request) (w : World Mem.Db)
  : Response * World Mem.Db :=
  api sample_float_check Mem.getPool r op req w.

(** A category is created; the log starts afresh. *)
Definition category_world : World Mem.Db :=
  {| store := store (sample Categoria Create
                       (request "" [("nombre", JStr "Hamburguesas")]) fresh_world).2;
     log := [] |}.

(** A category and a product of it are created. *)
Definition menu_world : World Mem.Db :=
  let w1 := (sample Categoria Create
               (request "" [("nombre", JStr "Hamburguesas")]) fresh_world).2 in
  (sample Producto Create
     (request "" [("categoria_id", JInt 1); ("nombre", JStr "Cheeseburger");
                  ("precio", JNum (455 # 10))]) w1).2.

(** Then the category is deleted: product 1 stays behind without it. *)
Definition orphan_world : World Mem.Db :=
  (sample Categoria Delete_ (request "1" []) menu_world).2.

Definition orphan_row : gmap string JsVal :=
  list_to_map
    [("categoria_id", JInt 1); ("nombre", JStr "Cheeseburger"); ("descripcion", JNull);
     ("precio", JNum (455 # 10)); ("disponible", JInt 1);
     ("created_at", Mem.now Mem.empty); ("updated_at", Mem.now Mem.empty)].

(** Product 1 of [menu_world] as the read projection shows it. *)
Definition cheeseburger : gmap string JsVal :=
  list_to_map
    [("id", JInt 1); ("categoria", JStr "Hamburguesas"); ("categoria_id", JInt 1);
     ("nombre", JStr "Cheeseburger"); ("descripcion", JNull);
     ("precio", JNum (455 # 10)); ("disponible", JInt 1);
     ("created_at", Mem.now Mem.empty); ("updated_at", Mem.now Mem.empty)].

(** ** The health check of server.js *)

(** What [res.status(code).json({ status, db })] sends. *)
Record HealthResponse := {
  h_code : Z;
  h_status : string;
  h_db : bool
}.

(** [v === 1] *)
Definition is_one (v : JsVal) : bool :=
  match v with JNum q => Qeq_bool q 1 | _ => false end.

(** [rows[0].ok]: reading a property of [undefined] throws, which is what
    happens when the result holds no first row. *)
Definition first_ok {Store} (rows : QueryResult) : Async Store JsVal :=
  λ w, match rows with
       | ResultRows (row :: _) => (Fulfilled (prop row "ok"), w)
       | _ => (Threw, w)
       end.

(** [app.get('/health', ...)]: one query without placeholders; the [catch]
    turns every failure into the 500 answer. *)
Definition health {Store} (getPool : Store → option (Pool Store))
  : World Store → HealthResponse * World Store :=
  λ w,
    match (pool <~ await_getPool getPool ;;
           rows <~ query pool "SELECT 1 AS ok" [] ;;
           ok <~ first_ok rows ;;
           ret {| h_code := 200; h_status := "ok"; h_db := is_one ok |}) w with
    | (Fulfilled r, w') => (r, w')
    | (Threw, w') => ({| h_code := 500; h_status := "error"; h_db := false |}, w')
    end.

(** The call the health check makes, with its outcome. *)
Definition ping (o : Outcome) : Event :=
  {| ev_sql := "SELECT 1 AS ok"; ev_params := []; ev_outcome := o |}.

(** ** Vocabulary for the runs of the routes *)

(** The number of [?] placeholders of a statement. *)
Fixpoint placeholder_count (s : string) : nat :=
  match s with
  | EmptyString => 0
  | String c s' => ((if Ascii.eqb c "?" then 1 else 0) + placeholder_count s')%nat
  end.

(** A call to [pool.query] passes one value per placeholder. *)
Definition balanced (ev : Event) : Prop :=
  placeholder_count (ev_sql ev) = length (ev_params ev).

(** The most statements one request makes: the writes that answer with the
    row read it back. *)
Definition statement_budget (op : Operation) : nat :=
  match op with Create | PartialUpdate => 2 | _ => 1 end.

(** The status codes of the [res.status(...)] and [res.json(...)] calls of
    the handlers of an operation, with the 400 of [handleValidation]. *)
Definition may_answer (op : Operation) : list Z :=
  match op with
  | List_ => [200; 500]
  | Create => [201; 400; 500]
  | GetById | PartialUpdate | Delete_ => [200; 400; 404; 500]
  end.

(** The body fields whose chain in the POST route is not [optional()]. *)
Definition required_fields (r : Resource) : list string :=
  match r with
  | Categoria | Ingrediente => ["nombre"]
  | Producto => ["categoria_id"; "nombre"; "precio"]
  | ProductoIngrediente => ["producto_id"; "ingrediente_id"; "cantidad_usada"]
  end.

Definition same_location (a b : Location) : bool :=
  match a, b with InBody, InBody | InParam, InParam => true | _, _ => false end.

(** Some chain makes the field [f] of [loc] mandatory: it is not optional and
    it carries a validator. *)
Definition demands (chains : list Chain) (loc : Location) (f : string) : bool :=
  existsb (λ c, same_location (ch_location c) loc && String.eqb (ch_field c) f
                && negb (ch_optional c)
                && match ch_validators c with [] => false | _ => true end) chains.

(** The DELETE a Delete request issues. *)
Definition delete_event (r : Resource) (req : Request) (o : Outcome) : Event :=
  {| ev_sql := delete_text r; ev_params := [prop (params req) "id"]; ev_outcome := o |}.

(** ** The effect of the statements on the in-memory store *)

(** The row an INSERT of [ps] writes. *)
Definition inserted_row (r : Resource) (ps : list JsVal) (db : Mem.Db)
  : gmap string JsVal :=
  Mem.stamp "updated_at" db (Mem.stamp "created_at" db
    (foldl Mem.assign ∅ (zip (updatable_fields r) ps))).

(** The store after that INSERT took the next key of the table. *)
Definition after_insert (r : Resource) (ps : list JsVal) (db : Mem.Db) : Mem.Db :=
  let t := Mem.table r db in
  Mem.with_table r
    {| Mem.rows := <[Mem.auto_increment t := inserted_row r ps db]> (Mem.rows t);
       Mem.auto_increment := Mem.auto_increment t + 1 |} db.

(** The store after a DELETE of the row with key [n]. *)
Definition after_delete (r : Resource) (n : Z) (db : Mem.Db) : Mem.Db :=
  let t := Mem.table r db in
  Mem.with_table r
    {| Mem.rows := delete n (Mem.rows t); Mem.auto_increment := Mem.auto_increment t |} db.

(** The store after the UPDATE of a Partial Update with body [b] rewrote the
    row [row] stored under [n]. *)
Definition after_update (r : Resource) (n : Z) (row : gmap string JsVal)
    (b : gmap string JsVal) (db : Mem.Db) : Mem.Db :=
  let t := Mem.table r db in
  let cols := set_clause r b in
  Mem.with_table r
    {| Mem.rows := <[n := Mem.stamp "updated_at" db
                            (foldl Mem.assign row (zip cols (coerced r b <$> cols)))]>
                     (Mem.rows t);
       Mem.auto_increment := Mem.auto_increment t |} db.

(** ** Sample pools *)

(** A pool whose every query is rejected, as when the server is unreachable. *)
Definition offline : unit → option (Pool unit) :=
  λ _, Some (λ _ _ st, (Rejected, st)).

(** A pool that answers the health check and nothing else. *)
Definition answering : unit → option (Pool unit) :=
  λ _, Some (λ sql _ st,
    if String.eqb sql "SELECT 1 AS ok"
    then (Resolved (ResultRows [{[ "ok" := JInt 1 ]}]), st)
    else (Rejected, st)).

Definition nowhere : World unit := {| store := (); log := [] |}.

(** * Properties *)

(** ** Running a handler symbolically *)

Ltac unfold_handlers H :=
  unfold api,
    categorias_get_all, categorias_get_by_id, categorias_post, categorias_delete,
    productos_get_all, productos_get_by_id, productos_post, productos_delete,
    ingredientes_get_all, ingredientes_get_by_id, ingredientes_post, ingredientes_delete,
    producto_ingrediente_get_all, producto_ingrediente_get_by_id,
    producto_ingrediente_post, producto_ingrediente_delete, partial_update in H.

(** One branching point of a run: the validation verdict, the pool, the
    answer to a query, or a test on that answer. *)
Ltac run_step H :=
  match type of H with
  | context [match ?x with _ => _ end] =>
      let T := type of x in
      match eval cbn in T with
      | option Response => destruct x eqn:?
      | option (Pool _) => destruct x eqn:?
      | (Outcome * _)%type => destruct x as [[?|] ?] eqn:?
      | list string => destruct x eqn:?
      | bool =>
          match x with
          | length_is_zero _ => destruct x eqn:?
          | affectedRows_is_zero _ => destruct x eqn:?
          end
      end
  end.

Ltac run H :=
  unfold_handlers H;
  unfold route, try_catch, bind, await_getPool, query, ret in H;
  repeat (first [run_step H | progress cbn beta iota zeta in H]);
  cbn [store log] in H.

Lemma log_extended (l evs evs' : list Event) :
  (l ++ evs)%list = (l ++ evs')%list → evs = evs'.
Proof. apply app_inv_head. Qed.

Lemma log_unchanged (l evs : list Event) : l = (l ++ evs)%list → evs = [].
Proof.
  intros H. rewrite <- (app_nil_r l) in H at 1. by apply app_inv_head in H.
Qed.

(** Reads the events off a hypothesis [issued w w' evs] once [w'] is known. *)
Ltac events Hi :=
  unfold issued in Hi; cbn [log] in Hi; rewrite <- ?app_assoc in Hi;
  first [apply log_unchanged in Hi | apply log_extended in Hi];
  cbn [app] in Hi; simplify_eq.

Ltac members H :=
  repeat (apply elem_of_cons in H as [-> | H]);
  try (by apply elem_of_nil in H); auto.

(** ** Validation *)

Section ValidationFacts.
Variable isFloatString : option Q → string → bool.

Lemma handleValidation_failure chains req resp :
  handleValidation isFloatString chains req = Some resp →
  status resp = 400 ∧ ok resp = false ∧ data resp = Absent ∧ errors resp ≠ [].
Proof.
  unfold handleValidation. destruct (validationResult _ _ _); [done|].
  intros [= <-]. done.
Qed.

Lemma handleValidation_None chains req :
  handleValidation isFloatString chains req = None ↔
  Forall (λ c, run_chain isFloatString req c = []) chains.
Proof.
  unfold handleValidation, validationResult.
  induction chains as [|c chains IH]; [done|].
  rewrite Forall_cons. cbn [mbind list_bind].
  destruct (run_chain isFloatString req c) eqn:Hc.
  - rewrite app_nil_l. split; [intros H; split; [done|by apply IH]|].
    intros [_ H]. by apply IH.
  - split; [done|]. by intros [? _].
Qed.

Lemma run_chain_absent req c :
  ch_optional c = true → field_value c req = JUndefined →
  run_chain isFloatString req c = [].
Proof. unfold run_chain. by intros -> ->. Qed.

Lemma run_chain_ok req c :
  forallb (λ v, passes isFloatString v (field_value c req)) (ch_validators c) = true →
  run_chain isFloatString req c = [].
Proof.
  unfold run_chain. intros H.
  destruct (_ && _); [done|].
  induction (ch_validators c) as [|v vs IH]; [done|].
  cbn in H. apply andb_prop in H as [Hv Hvs].
  cbn [List.filter]. rewrite Hv. cbn. by apply IH.
Qed.

Lemma run_chain_id req n :
  has_int_id req n → run_chain isFloatString req (param "id" |> isInt) = [].
Proof.
  intros (s & Hs & Hn). apply run_chain_ok. cbn.
  unfold prop. rewrite Hs. cbn. by rewrite Hn.
Qed.

Lemma prop_absent (o : gmap string JsVal) k : o !! k = None → prop o k = JUndefined.
Proof. unfold prop. by intros ->. Qed.

Lemma valid_without_fields r req n :
  has_int_id req n →
  (∀ f, f ∈ updatable_fields r → body req !! f = None) →
  handleValidation isFloatString (update_rules r) req = None.
Proof.
  intros Hid Hnone. apply handleValidation_None.
  destruct r; cbn [update_rules]; repeat first [apply Forall_nil_2 | apply Forall_cons_2].
  all: try (by eapply run_chain_id).
  all: apply run_chain_absent; [done|]; cbn; apply prop_absent, Hnone; cbn; set_solver.
Qed.

Lemma set_clause_none r (b : gmap string JsVal) :
  (∀ f, f ∈ updatable_fields r → b !! f = None) → set_clause r b = [].
Proof.
  intros H. unfold set_clause.
  induction (updatable_fields r) as [|f fs IH]; [done|].
  cbn. unfold supplied at 1. rewrite prop_absent; [|apply H; set_solver].
  cbn. apply IH. intros g Hg. apply H. set_solver.
Qed.
Lemma valid_id req n :
  has_int_id req n →
  handleValidation isFloatString [param "id" |> isInt] req = None.
Proof.
  intros Hid. apply handleValidation_None.
  repeat first [apply Forall_nil_2 | apply Forall_cons_2]. by eapply run_chain_id.
Qed.
End ValidationFacts.

(** ** The four hand-written Partial Updates are the one of the specification *)

Section Refinement.
Context {Store : Type}.
Variable isFloatString : option Q → string → bool.
Variable getPool : Store → option (Pool Store).

Lemma productos_put_loop (b : gmap string JsVal) (fields : list string)
    (sets : list string) (values : list JsVal) :
  foldl (productos_put_step b) (sets, values) fields
  = ((sets ++ (assignment <$> List.filter (supplied b) fields))%list,
     (values ++ (coerced Producto b <$> List.filter (supplied b) fields))%list).
Proof.
  revert sets values. induction fields as [|f fields IH]; intros sets values.
  - simpl. by rewrite !app_nil_r.
  - cbn [foldl List.filter]. unfold productos_put_step at 2.
    fold (supplied b f). destruct (supplied b f) eqn:Hf.
    + rewrite IH. cbn [fmap list_fmap]. unfold coerced at 2, assignment at 2.
      cbn [boolean_field].
      destruct (String.eqb f "disponible"); by rewrite <- !app_assoc.
    + apply IH.
Qed.

Lemma assignments_length_zero (cols : list string) :
  (length (assignment <$> cols) =? 0)%nat = match cols with [] => true | _ => false end.
Proof. by destruct cols. Qed.

Lemma api_partial_update (r : Resource) (req : Request) (w : World Store) :
  api isFloatString getPool r PartialUpdate req w
  = partial_update isFloatString getPool r req w.
Proof.
  destruct r; unfold api, partial_update.
  - unfold categorias_put, route; simpl update_rules.
    destruct (handleValidation _ _ _); [done|].
    unfold set_clause, supplied; simpl.
    by destruct (is_defined (prop (body req) "nombre")).
  - unfold productos_put, route; simpl update_rules.
    destruct (handleValidation _ _ _); [done|].
    rewrite productos_put_loop, !app_nil_l.
    unfold set_clause. change (updatable_fields Producto) with allowedFields.
    generalize (List.filter (supplied (body req)) allowedFields) as cols.
    intros cols. rewrite assignments_length_zero.
    destruct cols; reflexivity.
  - unfold ingredientes_put, route; simpl update_rules.
    destruct (handleValidation _ _ _); [done|].
    unfold set_clause, supplied, coerced; simpl.
    by destruct (is_defined (prop (body req) "nombre")),
                (is_defined (prop (body req) "perecedero")).
  - unfold producto_ingrediente_put, route; simpl update_rules.
    destruct (handleValidation _ _ _); [done|].
    unfold set_clause, supplied, coerced; simpl.
    by destruct (is_defined (prop (body req) "producto_id")),
                (is_defined (prop (body req) "ingrediente_id")),
                (is_defined (prop (body req) "cantidad_usada")).
Qed.

Lemma set_clause_sublist r (b : gmap string JsVal) :
  set_clause r b `sublist_of` updatable_fields r.
Proof.
  unfold set_clause. induction (updatable_fields r) as [|f fs IH]; [done|].
  cbn. destruct (supplied b f); by constructor.
Qed.
End Refinement.

(** ** The protocol over any pool *)

Section Protocol.
Context {Store : Type}.
Variable isFloatString : option Q → string → bool.
Variable getPool : Store → option (Pool Store).

(** C1. A Partial Update whose body holds none of the resource's updatable
    fields is answered 400 and leaves the world as it was: the store is
    untouched and no query is logged.  With a well-formed id the answer is
    the "nothing to update" one. *)
Theorem partial_update_nothing_to_update r req (w : World Store) :
  (∀ f, f ∈ updatable_fields r → body req !! f = None) →
  ∃ resp,
    api isFloatString getPool r PartialUpdate req w = (resp, w) ∧
    status resp = 400 ∧ ok resp = false ∧ data resp = Absent ∧
    (∀ n, has_int_id req n →
       resp = json 400 false "Nada para actualizar" Absent).
Proof.
  intros Hnone. rewrite api_partial_update. unfold partial_update, route.
  destruct (handleValidation _ _ _) as [failure|] eqn:Hv.
  - exists failure. split; [done|].
    destruct (handleValidation_failure _ _ _ _ Hv) as (? & ? & ? & ?).
    split_and!; try done.
    intros n Hn. by rewrite (valid_without_fields _ r req n) in Hv.
  - exists (json 400 false "Nada para actualizar" Absent).
    by rewrite set_clause_none.
Qed.
(** How a Partial Update can go. *)
Lemma partial_update_run r req (w : World Store) resp w' :
  api isFloatString getPool r PartialUpdate req w = (resp, w') →
  let id := prop (params req) "id" in
  (w' = w ∧ (status resp = 400 ∨ status resp = 500))
  ∨ (∃ pool, getPool (store w) = Some pool ∧ set_clause r (body req) ≠ [] ∧
      ((∃ e1, e1 = update_event r req Rejected ∧
          answered pool e1 (store w) (store w') ∧ issued w w' [e1] ∧ status resp = 500)
       ∨ (∃ e1 res, e1 = update_event r req (Resolved res) ∧
          answered pool e1 (store w) (store w') ∧ issued w w' [e1] ∧
          affectedRows_is_zero res = true ∧
          resp = json 404 false (not_found_message r) Absent)
       ∨ (∃ e1 res e2 st, e1 = update_event r req (Resolved res) ∧
          e2 = reread_event r id Rejected ∧
          answered pool e1 (store w) st ∧ answered pool e2 st (store w') ∧
          issued w w' [e1; e2] ∧ affectedRows_is_zero res = false ∧ status resp = 500)
       ∨ (∃ e1 res e2 rows st, e1 = update_event r req (Resolved res) ∧
          e2 = reread_event r id (Resolved rows) ∧
          answered pool e1 (store w) st ∧ answered pool e2 st (store w') ∧
          issued w w' [e1; e2] ∧ affectedRows_is_zero res = false ∧
          resp = json 200 true (updated_message r) (first_row rows)))).
Proof.
  intros H id. rewrite api_partial_update in H.
  unfold update_event, reread_event, answered, issued.
  run H; injection H as <- <-; cbn [log store ev_sql ev_params ev_outcome].
  all: try (left; split; [by destruct w|];
            first [left; by eapply handleValidation_failure | by left | by right]).
  all: right; eexists; split; [reflexivity|]; split; [done|].
  all: pose proof (app_assoc (log w)) as Hassoc.
  all: first
    [ solve [left; repeat eexists; first [eassumption | done]]
    | solve [right; left; repeat eexists; first [eassumption | done]]
    | solve [right; right; left; repeat eexists;
             first [eassumption | done | by rewrite <- Hassoc]]
    | solve [right; right; right; repeat eexists;
             first [eassumption | done | by rewrite <- Hassoc]] ].
Qed.

Lemma issued_inv (w w' : World Store) evs evs' :
  issued w w' evs → issued w w' evs' → evs = evs'.
Proof. unfold issued. intros -> H. by apply app_inv_head in H. Qed.

Lemma issued_nothing (w : World Store) evs : issued w w evs → evs = [].
Proof. apply log_unchanged. Qed.

(** C9. Whatever keys the body holds, the statements a Partial Update
    issues are the UPDATE whose SET clause names the supplied fields of the
    static allow-list, in its order, and the fixed re-read; the text of the
    UPDATE depends on the body only through which allow-listed fields it
    supplies. *)
Theorem update_columns_from_allow_list r req (w : World Store) resp w' evs :
  api isFloatString getPool r PartialUpdate req w = (resp, w') →
  issued w w' evs →
  set_clause r (body req) `sublist_of` updatable_fields r ∧
  (∀ ev, ev ∈ evs →
     ev_sql ev = update_text r (set_clause r (body req))
     ∨ ev_sql ev = projection_by_id r) ∧
  (∀ other : gmap string JsVal,
     (∀ f, f ∈ updatable_fields r → supplied other f = supplied (body req) f) →
     update_text r (set_clause r other) = update_text r (set_clause r (body req))).
Proof.
  intros H Hi. split; [apply set_clause_sublist|]. split.
  - intros ev Hev.
    destruct (partial_update_run _ _ _ _ _ H) as
      [[-> _]|(pool & _ & _ & [(e1 & -> & _ & Hi' & _)|[(e1 & res & -> & _ & Hi' & _)|
        [(e1 & res & e2 & st & -> & -> & _ & _ & Hi' & _)
        |(e1 & res & e2 & rows & st & -> & -> & _ & _ & Hi' & _)]]])].
    + apply issued_nothing in Hi as ->. by apply elem_of_nil in Hev.
    + rewrite (issued_inv _ _ _ _ Hi Hi') in Hev. members Hev.
    + rewrite (issued_inv _ _ _ _ Hi Hi') in Hev. members Hev.
    + rewrite (issued_inv _ _ _ _ Hi Hi') in Hev. members Hev.
    + rewrite (issued_inv _ _ _ _ Hi Hi') in Hev. members Hev.
  - intros other Hsame. f_equal. unfold set_clause.
    induction (updatable_fields r) as [|f fs IH]; [done|].
    cbn. rewrite Hsame by set_solver. rewrite IH; [done|].
    intros g Hg. apply Hsame. set_solver.
Qed.

(** C5. When the UPDATE of a Partial Update or the DELETE of a Delete
    reports zero affected rows the answer is not-found (404) and nothing
    else is run; a DELETE that affected rows is answered 200 with the
    confirmation message and no data. *)
Theorem zero_affected_rows_is_not_found r op req (w : World Store) resp w' ev rest a i :
  op = PartialUpdate ∨ op = Delete_ →
  api isFloatString getPool r op req w = (resp, w') →
  issued w w' (ev :: rest) →
  ev_outcome ev = Resolved (ResultHeader a i) →
  ev_sql ev = (if op is PartialUpdate then update_text r (set_clause r (body req))
               else delete_text r) ∧
  (a = 0 → resp = json 404 false (not_found_message r) Absent ∧ rest = []) ∧
  (op = Delete_ → a ≠ 0 → resp = json 200 true (deleted_message r) Absent ∧ rest = []).
Proof.
  intros [-> | ->] H Hi Ho.
  - destruct (partial_update_run _ _ _ _ _ H) as
      [[-> _]|(pool & _ & _ & [(e1 & -> & _ & Hi' & _)|[(e1 & res & -> & _ & Hi' & Hz & ->)|
        [(e1 & res & e2 & st & -> & -> & _ & _ & Hi' & Hz & _)
        |(e1 & res & e2 & rows & st & -> & -> & _ & _ & Hi' & Hz & _)]]])].
    + by apply issued_nothing in Hi.
    + pose proof (issued_inv _ _ _ _ Hi Hi'). by simplify_eq.
    + pose proof (issued_inv _ _ _ _ Hi Hi'). simplify_eq. cbn in Ho. simplify_eq.
      split_and!; try done.
    + pose proof (issued_inv _ _ _ _ Hi Hi'). simplify_eq. cbn in Ho. simplify_eq.
      split_and!; try done. intros ->. done.
    + pose proof (issued_inv _ _ _ _ Hi Hi'). simplify_eq. cbn in Ho. simplify_eq.
      split_and!; try done. intros ->. done.
  - destruct r; run H; injection H as <- <-; events Hi; cbn in Ho; simplify_eq.
    all: cbn in *; split_and!; try reflexivity; intros; try done.
    all: try (apply Z.eqb_eq in Heqb; done).
    all: try (apply Z.eqb_neq in Heqb; done).
Qed.

(** How a Get-by-id can go. *)
Lemma get_by_id_run r req (w : World Store) resp w' :
  api isFloatString getPool r GetById req w = (resp, w') →
  let id := prop (params req) "id" in
  (w' = w ∧ (status resp = 400 ∨ status resp = 500))
  ∨ (∃ pool, getPool (store w) = Some pool ∧
       ((∃ e, e = reread_event r id Rejected ∧
           answered pool e (store w) (store w') ∧ issued w w' [e] ∧ status resp = 500)
        ∨ (∃ e res, e = reread_event r id (Resolved res) ∧
           answered pool e (store w) (store w') ∧ issued w w' [e] ∧
           length_is_zero res = true ∧
           resp = json 404 false (not_found_message r) Absent)
        ∨ (∃ e res, e = reread_event r id (Resolved res) ∧
           answered pool e (store w) (store w') ∧ issued w w' [e] ∧
           length_is_zero res = false ∧
           resp = json 200 true "Consulta realizada correctamente" (first_row res)))).
Proof.
  intros H id. unfold reread_event, answered, issued.
  destruct r; run H; injection H as <- <-; cbn [log store ev_sql ev_params ev_outcome].
  all: try (left; split; [by destruct w|];
            first [left; by eapply handleValidation_failure | by left | by right]).
  all: right; eexists; split; [reflexivity|].
  all: first
    [ solve [left; repeat eexists; first [eassumption | done]]
    | solve [right; left; repeat eexists; first [eassumption | done]]
    | solve [right; right; repeat eexists; first [eassumption | done]] ].
Qed.

(** How a Create can go. *)
Lemma create_run r req (w : World Store) resp w' :
  api isFloatString getPool r Create req w = (resp, w') →
  (w' = w ∧ (status resp = 400 ∨ status resp = 500))
  ∨ (∃ pool, getPool (store w) = Some pool ∧
      ((∃ e1, e1 = insert_event r req Rejected ∧
          answered pool e1 (store w) (store w') ∧ issued w w' [e1] ∧ status resp = 500)
       ∨ (∃ e1 res e2 st, e1 = insert_event r req (Resolved res) ∧
          e2 = reread_event r (insertId res) Rejected ∧
          answered pool e1 (store w) st ∧ answered pool e2 st (store w') ∧
          issued w w' [e1; e2] ∧ status resp = 500)
       ∨ (∃ e1 res e2 rows st, e1 = insert_event r req (Resolved res) ∧
          e2 = reread_event r (insertId res) (Resolved rows) ∧
          answered pool e1 (store w) st ∧ answered pool e2 st (store w') ∧
          issued w w' [e1; e2] ∧
          resp = json 201 true (created_message r) (first_row rows)))).
Proof.
  intros H. unfold insert_event, reread_event, answered, issued.
  destruct r; run H; injection H as <- <-; cbn [log store ev_sql ev_params ev_outcome].
  all: try (left; split; [by destruct w|];
            first [left; by eapply handleValidation_failure | by left | by right]).
  all: right; eexists; split; [reflexivity|].
  all: pose proof (app_assoc (log w)) as Hassoc.
  all: first
    [ solve [left; repeat eexists; first [eassumption | done]]
    | solve [right; left; repeat eexists;
             first [eassumption | done | by rewrite <- Hassoc]]
    | solve [right; right; repeat eexists;
             first [eassumption | done | by rewrite <- Hassoc]] ].
Qed.

(** C6. Get-by-id with a well-formed id, the pool at hand, makes exactly
    one query: the read projection filtered by the id.  It answers not-found
    (404) exactly when that query yields no row; when it yields rows the
    answer is 200 with the first of them, joined labels included. *)
Theorem get_by_id_not_found_iff_no_rows r req (w : World Store) n pool :
  has_int_id req n →
  getPool (store w) = Some pool →
  let id := prop (params req) "id" in
  let answer := pool (projection_by_id r) [id] (store w) in
  let run := api isFloatString getPool r GetById req w in
  run.2 = {| store := answer.2;
             log := (log w ++ [reread_event r id answer.1])%list |} ∧
  (status run.1 = 404 ↔ answer.1 = Resolved (ResultRows [])) ∧
  (answer.1 = Resolved (ResultRows []) →
     run.1 = json 404 false (not_found_message r) Absent) ∧
  (∀ row more, answer.1 = Resolved (ResultRows (row :: more)) →
     run.1 = json 200 true "Consulta realizada correctamente" (OneRow row)).
Proof.
  intros Hid Hpool id answer run. subst run answer id.
  destruct r; unfold api, categorias_get_by_id, productos_get_by_id,
    ingredientes_get_by_id, producto_ingrediente_get_by_id, route;
    rewrite (valid_id _ _ _ Hid);
    unfold try_catch, bind, await_getPool, query, ret, reread_event; rewrite Hpool;
    match goal with
    | |- context [projection_by_id ?r] =>
        let v := eval vm_compute in (projection_by_id r) in
        change (projection_by_id r) with v
    end;
    destruct (pool _ _ _) as [[[[|row more]|a i]|] st];
    cbn [fst snd status json store log length_is_zero first_row];
    split_and!; first [done | by intros ?? [= <- <-] | by intros ?? [=]].
Qed.

(** C7. A Create answered 201 and a Partial Update answered 200 carry as
    data the first row of a re-read issued after the write: the statement
    of Get-by-id, with the generated id (Create) or the path id (Partial
    Update) as its parameter.  Get-by-id itself issues that statement and
    nothing else. *)
Theorem write_returns_reread_row r op req (w : World Store) resp w' :
  op = Create ∨ op = PartialUpdate →
  api isFloatString getPool r op req w = (resp, w') →
  status resp = success_status op →
  (∃ e1 res e2 rows,
     issued w w' [e1; e2] ∧
     ev_outcome e1 = Resolved res ∧
     e2 = reread_event r
            (if op is Create then insertId res else prop (params req) "id")
            (Resolved rows) ∧
     data resp = first_row rows) ∧
  (∀ req0 (w0 : World Store) resp0 w0' evs ev,
     api isFloatString getPool r GetById req0 w0 = (resp0, w0') →
     issued w0 w0' evs → ev ∈ evs →
     ∃ o, ev = reread_event r (prop (params req0) "id") o).
Proof.
  intros Hop H Hst. split.
  - destruct Hop as [-> | ->].
    + destruct (create_run _ _ _ _ _ H) as
        [[_ [Hs|Hs]]|(pool & _ & [(e1 & _ & _ & _ & Hs)|[(e1 & res & e2 & st & _ & _ & _ & _ & _ & Hs)
          |(e1 & res & e2 & rows & st & -> & -> & _ & _ & Hi & ->)]])];
        try (rewrite Hs in Hst; done).
      by eexists _, _, _, _.
    + destruct (partial_update_run _ _ _ _ _ H) as
        [[_ [Hs|Hs]]|(pool & _ & _ & [(e1 & _ & _ & _ & Hs)|[(e1 & res & _ & _ & _ & _ & ->)|
          [(e1 & res & e2 & st & _ & _ & _ & _ & _ & _ & Hs)
          |(e1 & res & e2 & rows & st & -> & -> & _ & _ & Hi & _ & ->)]]])];
        try (rewrite Hs in Hst; done); try done.
      by eexists _, _, _, _.
  - intros req0 w0 resp0 w0' evs ev H0 Hi Hev.
    destruct (get_by_id_run _ _ _ _ _ H0) as
      [[-> _]|(pool & _ & [(e & -> & _ & Hi' & _)|[(e & res & -> & _ & Hi' & _)
                                                |(e & res & -> & _ & Hi' & _)]])].
    + apply issued_nothing in Hi as ->. by apply elem_of_nil in Hev.
    + rewrite (issued_inv _ _ _ _ Hi Hi') in Hev. members Hev. by eexists.
    + rewrite (issued_inv _ _ _ _ Hi Hi') in Hev. members Hev. by eexists.
    + rewrite (issued_inv _ _ _ _ Hi Hi') in Hev. members Hev. by eexists.
Qed.

(** A re-read that finds no row does not turn the write into a failure. *)
Lemma reread_without_rows r op req (w : World Store) resp w' e1 e2 :
  op = Create ∨ op = PartialUpdate →
  api isFloatString getPool r op req w = (resp, w') →
  issued w w' [e1; e2] →
  ev_outcome e2 = Resolved (ResultRows []) →
  status resp = success_status op ∧ ok resp = true ∧ data resp = Absent.
Proof.
  intros [-> | ->] H Hi Ho.
  - destruct (create_run _ _ _ _ _ H) as
      [[-> _]|(pool & _ & [(? & _ & _ & Hi' & _)|[(? & res & ? & st & -> & -> & _ & _ & Hi' & _)
        |(? & res & ? & rows & st & -> & -> & _ & _ & Hi' & ->)]])].
    + by apply issued_nothing in Hi.
    + pose proof (issued_inv _ _ _ _ Hi Hi'). by simplify_eq.
    + pose proof (issued_inv _ _ _ _ Hi Hi'). by simplify_eq.
    + pose proof (issued_inv _ _ _ _ Hi Hi'). simplify_eq. cbn in Ho. by simplify_eq.
  - destruct (partial_update_run _ _ _ _ _ H) as
      [[-> _]|(pool & _ & _ & [(? & _ & _ & Hi' & _)|[(? & res & _ & _ & Hi' & _)|
        [(? & res & ? & st & -> & -> & _ & _ & Hi' & _)
        |(? & res & ? & rows & st & -> & -> & _ & _ & Hi' & _ & ->)]]])].
    + by apply issued_nothing in Hi.
    + pose proof (issued_inv _ _ _ _ Hi Hi'). by simplify_eq.
    + pose proof (issued_inv _ _ _ _ Hi Hi'). by simplify_eq.
    + pose proof (issued_inv _ _ _ _ Hi Hi'). by simplify_eq.
    + pose proof (issued_inv _ _ _ _ Hi Hi'). simplify_eq. cbn in Ho. by simplify_eq.
Qed.
End Protocol.

(** ** The protocol over the in-memory store *)

Lemma mem_parse_by_id r : Mem.parse_statement (projection_by_id r) = Some (Mem.SelectById r).
Proof. destruct r; vm_compute; reflexivity. Qed.

Lemma mem_parse_insert r : Mem.parse_statement (insert_text r) = Some (Mem.InsertInto r).
Proof. destruct r; vm_compute; reflexivity. Qed.

Lemma mem_parse_delete r : Mem.parse_statement (delete_text r) = Some (Mem.DeleteById r).
Proof. destruct r; vm_compute; reflexivity. Qed.

Lemma mem_parse_update r cols :
  cols `sublist_of` updatable_fields r → cols ≠ [] →
  Mem.parse_statement (update_text r cols) = Some (Mem.UpdateById r cols).
Proof.
  intros Hsub Hne. destruct r; cbn [updatable_fields] in Hsub.
  all: repeat match goal with
       | H : _ `sublist_of` (_ :: _) |- _ => inversion H; clear H; subst
       | H : _ `sublist_of` [] |- _ => inversion H; clear H; subst
       end.
  all: first [done | vm_compute; reflexivity].
Qed.


Lemma mem_select_by_id r id db :
  Mem.pool (projection_by_id r) [id] db
  = (Resolved (ResultRows (Mem.select_by_id r db id)), db).
Proof. unfold Mem.pool. by rewrite mem_parse_by_id. Qed.

Lemma zip_app_extra {A B} (l : list A) (k k' : list B) :
  length k = length l → zip l (k ++ k')%list = zip l k.
Proof.
  revert k. induction l as [|a l IH]; intros [|b k] Hlen; simplify_eq/=; [done|].
  f_equal. by apply IH.
Qed.

Lemma mem_update r cols (vals : list JsVal) id db :
  cols `sublist_of` updatable_fields r → cols ≠ [] → length vals = length cols →
  Mem.pool (update_text r cols) (vals ++ [id])%list db
  = match n ← Mem.sql_int id; row ← Mem.rows (Mem.table r db) !! n; Some (n, row) with
    | Some (n, row) =>
        if negb (Mem.references_hold r db (zip cols vals)) then (Rejected, db)
        else
        (Resolved (ResultHeader 1 0),
         Mem.with_table r
           {| Mem.rows := <[n := Mem.stamp "updated_at" db
                                   (foldl Mem.assign row (zip cols vals))]>
                            (Mem.rows (Mem.table r db));
              Mem.auto_increment := Mem.auto_increment (Mem.table r db) |} db)
    | None => (Resolved (ResultHeader 0 0), db)
    end.
Proof.
  intros Hsub Hne Hlen. unfold Mem.pool. rewrite mem_parse_update by done.
  unfold Mem.run. rewrite lookup_app_r by lia.
  rewrite Hlen, Nat.sub_diag. cbn [lookup list_lookup].
  rewrite length_app, Hlen. cbn [length].
  replace (length cols + 1 =? S (length cols))%nat with true
    by (symmetry; apply Nat.eqb_eq; lia).
  cbn [negb]. by rewrite zip_app_extra.
Qed.

Lemma table_with_table r t db : Mem.table r (Mem.with_table r t db) = t.
Proof. by destruct r. Qed.

Lemma table_with_table_ne r r' t db :
  r ≠ r' → Mem.table r' (Mem.with_table r t db) = Mem.table r' db.
Proof. by destruct r, r'. Qed.

Lemma foldl_assign_other (row : gmap string JsVal) (l : list (string * JsVal)) c :
  c ∉ l.*1 → foldl Mem.assign row l !! c = row !! c.
Proof.
  revert row. induction l as [|[c' v] l IH]; intros row Hc; [done|].
  cbn in *. apply not_elem_of_cons in Hc as [Hne Hc]. rewrite IH by done.
  unfold Mem.assign. cbn. by apply lookup_insert_ne.
Qed.

Lemma foldl_assign_written (row : gmap string JsVal) (cols : list string)
    (f : string → JsVal) c :
  c ∈ cols →
  foldl Mem.assign row (zip cols (f <$> cols)) !! c = Some (Mem.sql_value (f c)).
Proof.
  revert row. induction cols as [|c' cols IH]; intros row Hc.
  - by apply elem_of_nil in Hc.
  - cbn. destruct (decide (c ∈ cols)) as [Hin|Hout].
    + by apply IH.
    + apply elem_of_cons in Hc as [->|?]; [|done].
      rewrite foldl_assign_other.
      * unfold Mem.assign. cbn. apply lookup_insert_eq.
      * intros Hin. apply Hout. apply list_elem_of_fmap in Hin as ([c1 v1] & -> & Hz).
        apply elem_of_zip_l in Hz. done.
Qed.

Lemma updated_at_not_updatable r : "updated_at" ∉ updatable_fields r.
Proof.
  destruct r; cbn; repeat (rewrite not_elem_of_cons; split; [done|]);
    apply not_elem_of_nil.
Qed.

Lemma set_clause_elem r (b : gmap string JsVal) c :
  c ∈ set_clause r b → c ∈ updatable_fields r.
Proof. intros H. eapply elem_of_sublist; [done|apply set_clause_sublist]. Qed.

Lemma has_int_id_sql_int req n :
  has_int_id req n → Mem.sql_int (prop (params req) "id") = Some n.
Proof. intros (s & Hs & Hn). unfold prop. by rewrite Hs. Qed.

Lemma elem_of_set_clause r (b : gmap string JsVal) c :
  c ∈ set_clause r b ↔ c ∈ updatable_fields r ∧ supplied b c = true.
Proof. unfold set_clause. by rewrite list_elem_of_In, filter_In, <- list_elem_of_In. Qed.

(** A validated Partial Update with a field to set, on the in-memory store:
    not-found when the row is missing, a write failure when a foreign key
    among the fields finds no parent, and otherwise the row is rewritten and
    read back. *)
Lemma mem_partial_update isFloatString r req (w : World Mem.Db) n :
  has_int_id req n →
  handleValidation isFloatString (update_rules r) req = None →
  set_clause r (body req) ≠ [] →
  let id := prop (params req) "id" in
  let cols := set_clause r (body req) in
  api isFloatString Mem.getPool r PartialUpdate req w
  = match Mem.rows (Mem.table r (store w)) !! n with
    | None =>
        (json 404 false (not_found_message r) Absent,
         {| store := store w;
            log := (log w ++ [update_event r req (Resolved (ResultHeader 0 0))])%list |})
    | Some row =>
        if negb (Mem.references_hold r (store w)
                   (zip cols (coerced r (body req) <$> cols)))
        then
          (json 500 false (update_failed_message r) Absent,
           {| store := store w; log := (log w ++ [update_event r req Rejected])%list |})
        else
          let db' := after_update r n row (body req) (store w) in
          let rows := ResultRows (Mem.select_by_id r db' id) in
          (json 200 true (updated_message r) (first_row rows),
           {| store := db';
              log := (log w ++ [update_event r req (Resolved (ResultHeader 1 0));
                                reread_event r id (Resolved rows)])%list |})
    end.
Proof.
  intros Hid Hv Hne id cols. subst id cols.
  rewrite api_partial_update. unfold partial_update, route. rewrite Hv.
  unfold update_event, reread_event, after_update.
  destruct (set_clause r (body req)) as [|c cols] eqn:Hcols; [done|].
  unfold try_catch, bind, await_getPool, query, ret. cbn [Mem.getPool].
  assert (Hsub : (c :: cols) `sublist_of` updatable_fields r)
    by (rewrite <- Hcols; apply set_clause_sublist).
  rewrite mem_update by (first [done | by rewrite length_fmap]).
  rewrite (has_int_id_sql_int _ _ Hid). cbn [mbind option_bind].
  destruct (Mem.rows (Mem.table r (store w)) !! n) as [row|]; cbn [mbind option_bind];
    [|done].
  destruct (Mem.references_hold _ _ _); cbn [negb affectedRows_is_zero Z.eqb]; [|done].
  cbn [store log]. rewrite mem_select_by_id. cbn [store log].
  by rewrite <- app_assoc.
Qed.

(** C3. A Partial Update that passes validation and holds a recognised
    field issues, as its first statement, the UPDATE whose SET clause names
    exactly the recognised fields present in the body.  It is answered 200
    exactly when the addressed row exists and every foreign key among those
    fields finds its parent; then the row holds the supplied values in those
    columns, every other column but [updated_at] keeps its value, and no
    other row and no other table changes.  Answered otherwise, it leaves the
    store as it was. *)
Theorem partial_update_sets_supplied_fields_only isFloatString r req
    (w : World Mem.Db) n f :
  has_int_id req n →
  handleValidation isFloatString (update_rules r) req = None →
  f ∈ updatable_fields r →
  supplied (body req) f = true →
  let cols := set_clause r (body req) in
  let run := api isFloatString Mem.getPool r PartialUpdate req w in
  (∀ c, c ∈ cols ↔ c ∈ updatable_fields r ∧ supplied (body req) c = true) ∧
  (∃ o rest, issued w run.2 (update_event r req o :: rest)) ∧
  (status run.1 = 200 ↔
     is_Some (Mem.rows (Mem.table r (store w)) !! n) ∧
     Mem.references_hold r (store w) (zip cols (coerced r (body req) <$> cols)) = true) ∧
  (status run.1 = 200 →
     ∃ row row',
       Mem.rows (Mem.table r (store w)) !! n = Some row ∧
       Mem.rows (Mem.table r (store run.2)) !! n = Some row' ∧
       (∀ c, c ∉ cols → c ≠ "updated_at" → row' !! c = row !! c) ∧
       (∀ c, c ∈ cols → row' !! c = Some (Mem.sql_value (coerced r (body req) c))) ∧
       (∀ m, m ≠ n →
          Mem.rows (Mem.table r (store run.2)) !! m
          = Mem.rows (Mem.table r (store w)) !! m) ∧
       (∀ r', r' ≠ r → Mem.table r' (store run.2) = Mem.table r' (store w))) ∧
  (status run.1 ≠ 200 → store run.2 = store w).
Proof.
  intros Hid Hv Hf Hs cols run.
  assert (Hin : f ∈ cols) by (by apply elem_of_set_clause).
  assert (Hne : cols ≠ []) by (intros Hnil; rewrite Hnil in Hin; by apply elem_of_nil in Hin).
  split; [intros c; apply elem_of_set_clause|].
  subst run. rewrite (mem_partial_update _ _ _ _ n Hid Hv Hne). fold cols.
  destruct (Mem.rows (Mem.table r (store w)) !! n) as [row|] eqn:Hrow.
  2:{ cbn [fst snd status json store].
      split_and!;
        first [ done | by eexists _, _
              | split; [done|]; by intros [[? ?] _] ]. }
  destruct (Mem.references_hold r (store w) _) eqn:Href; cbn [negb fst snd status json store].
  2:{ split_and!;
        first [ done | by eexists _, _
              | split; [done|]; by intros [_ ?] ]. }
  split_and!; [by eexists _, _|done|..]; [|done].
  intros _. unfold after_update. fold cols. rewrite table_with_table. cbn [Mem.rows].
  eexists row, _. split_and!; [done|apply lookup_insert_eq|..].
  - intros c Hc Hup. unfold Mem.stamp. rewrite lookup_insert_ne by done.
    apply foldl_assign_other. intros Hin'. apply Hc.
    apply list_elem_of_fmap in Hin' as ([c1 v1] & -> & Hzip).
    by apply elem_of_zip_l in Hzip.
  - intros c Hc. unfold Mem.stamp. rewrite lookup_insert_ne.
    + by apply foldl_assign_written.
    + intros <-. apply set_clause_elem in Hc. by apply updated_at_not_updatable in Hc.
  - intros m Hm. by apply lookup_insert_ne.
  - intros r' Hr'. by apply table_with_table_ne.
Qed.

Ltac mem_parse :=
  match goal with
  | |- context [Mem.parse_statement ?s] =>
      let v := eval vm_compute in (Mem.parse_statement s) in
      replace (Mem.parse_statement s) with v by (vm_compute; reflexivity)
  end.

Lemma mem_list isFloatString r req (w : World Mem.Db) :
  api isFloatString Mem.getPool r List_ req w
  = (json 200 true "Consulta realizada correctamente"
       (RowArray (Mem.select_all r (store w))),
     {| store := store w;
        log := (log w ++ [list_event r
                            (Resolved (ResultRows (Mem.select_all r (store w))))])%list |}).
Proof.
  destruct r; unfold api, categorias_get_all, productos_get_all, ingredientes_get_all,
    producto_ingrediente_get_all, route, try_catch, bind, await_getPool, query, ret,
    Mem.getPool, Mem.pool; cbn [handleValidation validationResult mbind list_bind];
    mem_parse; reflexivity.
Qed.

#[local] Instance id_desc_total : Total Mem.id_desc.
Proof. intros a b. unfold Mem.id_desc. lia. Qed.

#[local] Instance id_desc_trans : Transitive Mem.id_desc.
Proof. intros a b c. unfold Mem.id_desc. lia. Qed.

Lemma joined_keys_sublist r db :
  (Mem.joined r db).*1 `sublist_of` (map_to_list (Mem.rows (Mem.table r db))).*1.
Proof.
  unfold Mem.joined. induction (map_to_list _) as [|[n row] l IH]; [done|].
  cbn. destruct (Mem.project r db n row); cbn; by constructor.
Qed.

Lemma strictly_descending (l : list (Z * gmap string JsVal)) :
  StronglySorted Mem.id_desc l → NoDup l.*1 → StronglySorted (λ a b, b < a) l.*1.
Proof.
  induction 1 as [|x l Hl IH Hall]; cbn; [constructor|].
  rewrite NoDup_cons. intros [Hx Hnd]. constructor; [by apply IH|].
  apply Forall_fmap, Forall_forall. intros y Hy. cbn.
  rewrite Forall_forall in Hall. specialize (Hall y Hy). unfold Mem.id_desc in Hall.
  assert (y.1 ≠ x.1); [|lia].
  intros Heq. apply Hx. rewrite <- Heq. by apply list_elem_of_fmap_2.
Qed.

Lemma elem_of_joined r db n x :
  (n, x) ∈ Mem.joined r db ↔
  ∃ row, Mem.rows (Mem.table r db) !! n = Some row ∧ Mem.project r db n row = Some x.
Proof.
  unfold Mem.joined. rewrite list_elem_of_omap. split.
  - intros ([m row] & Hin & Hp). apply elem_of_map_to_list in Hin.
    destruct (Mem.project r db m row) as [y|] eqn:Hy; simplify_eq/=. eauto.
  - intros (row & Hrow & Hp). exists (n, row). rewrite elem_of_map_to_list.
    split; [done|]. by rewrite Hp.
Qed.

Lemma project_id r db n row x :
  Mem.project r db n row = Some x → x !! "id" = Some (JInt n).
Proof.
  destruct r; cbn; intros Hp; simplify_option_eq; apply lookup_insert_eq.
Qed.

(** The joined label of a product is the name of its category. *)
Lemma project_categoria db n row x :
  Mem.project Producto db n row = Some x →
  ∃ k c, Mem.sql_int (Mem.col row "categoria_id") = Some k ∧
         Mem.rows (Mem.categorias db) !! k = Some c ∧
         x !! "categoria" = Some (Mem.col c "nombre").
Proof.
  cbn. intros Hp. destruct (Mem.sql_int _) as [k|]; [|done]. cbn in Hp.
  destruct (Mem.rows (Mem.categorias db) !! k) as [c|] eqn:Hc; [|done].
  injection Hp as <-. exists k, c. split_and!; [done..|].
  rewrite lookup_insert_ne by done. apply lookup_insert_eq.
Qed.

Lemma project_total r db n row :
  r = Categoria ∨ r = Ingrediente → is_Some (Mem.project r db n row).
Proof. intros [-> | ->]; by eexists. Qed.

Lemma parent_missing_project r db n row :
  parent_missing r db row → Mem.project r db n row = None.
Proof.
  destruct r; cbn; [done| |done|].
  - intros H. destruct (Mem.sql_int _) as [k|]; [|done]. cbn. by rewrite (H k).
  - intros [H|H].
    + destruct (Mem.sql_int (Mem.col row "producto_id")) as [k|]; [|done].
      cbn. by rewrite (H k).
    + destruct (Mem.sql_int (Mem.col row "producto_id")) as [k|]; [|done]. cbn.
      destruct (Mem.rows (Mem.productos db) !! k); [|done]. cbn.
      destruct (Mem.sql_int (Mem.col row "ingrediente_id")) as [k'|]; [|done].
      cbn. by rewrite (H k').
Qed.

Lemma project_parent r db n row :
  is_Some (Mem.project r db n row) ↔ ¬ parent_missing r db row.
Proof.
  split.
  - intros [x Hx] Hmiss. by rewrite (parent_missing_project _ _ _ _ Hmiss) in Hx.
  - intros Hnot. destruct (Mem.project r db n row) eqn:Hp; [by eexists|].
    exfalso. apply Hnot. destruct r; cbn in Hp |- *; try done.
    + intros k Hk. rewrite Hk in Hp. cbn in Hp.
      by destruct (Mem.rows (Mem.categorias db) !! k).
    + destruct (Mem.sql_int (Mem.col row "producto_id")) as [kp|] eqn:Hkp;
        [|by left]. cbn in Hp.
      destruct (Mem.rows (Mem.productos db) !! kp) eqn:Hprod;
        [|left; intros k [= <-]; done]. cbn in Hp.
      right. intros k Hk. rewrite Hk in Hp. cbn in Hp.
      by destruct (Mem.rows (Mem.ingredientes db) !! k).
Qed.

Lemma elem_of_sorted_joined r db n x :
  (n, x) ∈ merge_sort Mem.id_desc (Mem.joined r db) ↔
  ∃ row, Mem.rows (Mem.table r db) !! n = Some row ∧ Mem.project r db n row = Some x.
Proof. rewrite merge_sort_Permutation. apply elem_of_joined. Qed.

(** X16. On the in-memory store List always answers 200 with an array: the
    rows of the read projection, one for each stored row whose foreign keys
    all find their parent (every stored row for categorias and
    ingredientes), in strictly descending order of id; an empty table gives
    the empty array. *)
Theorem list_returns_joined_rows_descending isFloatString r req (w : World Mem.Db) :
  ∃ keyed : list (Z * gmap string JsVal),
    api isFloatString Mem.getPool r List_ req w
    = (json 200 true "Consulta realizada correctamente" (RowArray keyed.*2),
       {| store := store w;
          log := (log w ++ [list_event r (Resolved (ResultRows keyed.*2))])%list |}) ∧
    StronglySorted (λ a b, b < a) keyed.*1 ∧
    (∀ n x, (n, x) ∈ keyed ↔
       ∃ row, Mem.rows (Mem.table r (store w)) !! n = Some row ∧
              Mem.project r (store w) n row = Some x) ∧
    (∀ n x, (n, x) ∈ keyed → x !! "id" = Some (JInt n)) ∧
    (∀ n, n ∈ keyed.*1 ↔
       ∃ row, Mem.rows (Mem.table r (store w)) !! n = Some row ∧
              ¬ parent_missing r (store w) row) ∧
    (Mem.rows (Mem.table r (store w)) = ∅ → keyed = []) ∧
    (r = Categoria ∨ r = Ingrediente →
       ∀ n, is_Some (Mem.rows (Mem.table r (store w)) !! n) → n ∈ keyed.*1).
Proof.
  exists (merge_sort Mem.id_desc (Mem.joined r (store w))).
  assert (Hperm : merge_sort Mem.id_desc (Mem.joined r (store w)) ≡ₚ Mem.joined r (store w))
    by apply merge_sort_Permutation.
  pose proof (elem_of_sorted_joined r (store w)) as Hmem.
  split_and!.
  - apply mem_list.
  - apply strictly_descending; [apply StronglySorted_merge_sort; apply _|].
    rewrite Hperm. eapply sublist_NoDup; [|apply joined_keys_sublist].
    apply NoDup_fst_map_to_list.
  - done.
  - intros n x (row & _ & Hp)%Hmem. by eapply project_id.
  - intros n. rewrite list_elem_of_fmap. split.
    + intros ([m x] & -> & (row & Hrow & Hp)%Hmem). exists row. split; [done|].
      apply (project_parent r (store w) m row). by eexists.
    + intros (row & Hrow & [x Hx]%(project_parent r (store w) n row)).
      exists (n, x). split; [done|]. apply Hmem. eauto.
  - intros Hempty. apply Permutation_nil_r. rewrite Hperm.
    unfold Mem.joined. by rewrite Hempty, map_to_list_empty.
  - intros Hr n [row Hrow]. destruct (project_total r (store w) n row Hr) as [x Hx].
    apply list_elem_of_fmap. exists (n, x). split; [done|]. apply Hmem. eauto.
Qed.

Example orphan_row_stored :
  Mem.rows (Mem.productos (store orphan_world)) !! 1 = Some orphan_row.
Proof. vm_compute. reflexivity. Qed.

Example orphan_parent_gone : Mem.rows (Mem.categorias (store orphan_world)) = ∅.
Proof. vm_compute. reflexivity. Qed.

(** C4 (defect). A category and a product of it are created and the
    category is deleted, each call answered with success.  Productos still
    holds row 1, yet List of productos, documented as listing all the
    products, answers 200 with the empty array: not every stored row is in
    its data.  Partial Update and Delete of id 1 find the row. *)
Theorem list_omits_stored_product :
  status (sample Categoria Create
            (request "" [("nombre", JStr "Hamburguesas")]) fresh_world).1 = 201 ∧
  status (sample Producto Create
            (request "" [("categoria_id", JInt 1); ("nombre", JStr "Cheeseburger");
                         ("precio", JNum (455 # 10))]) category_world).1 = 201 ∧
  status (sample Categoria Delete_ (request "1" []) menu_world).1 = 200 ∧
  Mem.rows (Mem.productos (store orphan_world)) !! 1 = Some orphan_row ∧
  (sample Producto List_ (request "" []) orphan_world).1
  = json 200 true "Consulta realizada correctamente" (RowArray []) ∧
  ¬ lists_all_rows sample_float_check Producto orphan_world ∧
  status (sample Producto PartialUpdate
            (request "1" [("precio", JNum 50)]) orphan_world).1 = 200 ∧
  status (sample Producto Delete_ (request "1" []) orphan_world).1 = 200.
Proof.
  split_and!; try (vm_compute; reflexivity).
  intros (l & Hl & Hall). rewrite mem_list in Hl. cbn [fst data json] in Hl.
  assert (Hnone : Mem.select_all Producto (store orphan_world) = [])
    by (vm_compute; reflexivity).
  rewrite Hnone in Hl. injection Hl as <-.
  destruct (Hall 1) as (x & Hx & _).
  - exists orphan_row. apply orphan_row_stored.
  - by apply elem_of_nil in Hx.
Qed.

Lemma mem_get_by_id isFloatString r req (w : World Mem.Db) n :
  has_int_id req n →
  let found := Mem.select_by_id r (store w) (prop (params req) "id") in
  api isFloatString Mem.getPool r GetById req w
  = (match found with
     | [] => json 404 false (not_found_message r) Absent
     | x :: _ => json 200 true "Consulta realizada correctamente" (OneRow x)
     end,
     {| store := store w;
        log := (log w ++ [reread_event r (prop (params req) "id")
                            (Resolved (ResultRows found))])%list |}).
Proof.
  intros Hid found. subst found.
  destruct r; unfold api, categorias_get_by_id, productos_get_by_id,
    ingredientes_get_by_id, producto_ingrediente_get_by_id, route;
    rewrite (valid_id _ _ _ Hid);
    unfold try_catch, bind, await_getPool, query, ret, Mem.getPool, Mem.pool;
    mem_parse; cbn [Mem.run];
    by destruct (Mem.select_by_id _ _ _).
Qed.

Lemma prop_present (o : gmap string JsVal) k v : o !! k = Some v → prop o k = v.
Proof. unfold prop. by intros ->. Qed.

(** C10. A stored row of productos or producto_ingrediente whose foreign key
    finds no parent is left out of List and is not-found for Get-by-id,
    although the row exists; and a Create or Partial Update whose re-read
    under this projection comes back empty still answers 201 or 200, with no
    data. *)
Theorem orphan_rows_are_hidden isFloatString r db n row :
  Mem.rows (Mem.table r db) !! n = Some row →
  parent_missing r db row →
  (∀ req lg l,
     data (api isFloatString Mem.getPool r List_ req {| store := db; log := lg |}).1
     = RowArray l →
     ∀ x, x ∈ l → x !! "id" ≠ Some (JInt n)) ∧
  (∀ req lg, has_int_id req n →
     (api isFloatString Mem.getPool r GetById req {| store := db; log := lg |}).1
     = json 404 false (not_found_message r) Absent) ∧
  (∀ (Store : Type) (getPool : Store → option (Pool Store)) op req
     (w : World Store) resp w' e1 e2,
     op = Create ∨ op = PartialUpdate →
     api isFloatString getPool r op req w = (resp, w') →
     issued w w' [e1; e2] →
     ev_outcome e2 = Resolved (ResultRows []) →
     status resp = success_status op ∧ ok resp = true ∧ data resp = Absent).
Proof.
  intros Hrow Hmiss. pose proof (parent_missing_project r db n row Hmiss) as Hnone.
  split_and!.
  - intros req lg l Hl x Hx Hid. rewrite mem_list in Hl. cbn in Hl. injection Hl as <-.
    unfold Mem.select_all in Hx.
    apply list_elem_of_fmap in Hx as ([m y] & -> & Hin). cbn in Hid.
    apply elem_of_sorted_joined in Hin as (row' & Hrow' & Hp).
    rewrite (project_id _ _ _ _ _ Hp) in Hid. injection Hid as ->.
    rewrite Hrow in Hrow'. injection Hrow' as <-. by rewrite Hnone in Hp.
  - intros req lg Hid. rewrite (mem_get_by_id _ _ _ _ n Hid). cbn [fst store].
    destruct Hid as (s & Hs & Hn). rewrite (prop_present _ _ _ Hs).
    unfold Mem.select_by_id. cbn [Mem.sql_int]. by rewrite Hn, Hrow, Hnone.
  - intros Store getPool op req w resp w' e1 e2. apply reread_without_rows.
Qed.

(** ** The quantity rule of producto_ingrediente *)

Section QuantityRule.
Context {Store : Type}.
Variable isFloatString : option Q → string → bool.
Variable getPool : Store → option (Pool Store).

Lemma handleValidation_rejects chains req c v :
  c ∈ chains →
  ch_optional c && negb (is_defined (field_value c req)) = false →
  v ∈ ch_validators c →
  passes isFloatString v (field_value c req) = false →
  ∃ resp, handleValidation isFloatString chains req = Some resp ∧
    status resp = 400 ∧ ok resp = false ∧
    ∃ e, e ∈ errors resp ∧ ve_path e = ch_field c.
Proof.
  intros Hc Hrun Hv Hfail.
  set (e := {| ve_path := ch_field c; ve_msg := "Invalid value" |}).
  assert (He : e ∈ validationResult isFloatString chains req).
  { unfold validationResult. apply list_elem_of_bind. exists c. split; [|done].
    unfold run_chain. rewrite Hrun.
    apply list_elem_of_fmap. exists v. split; [done|].
    apply list_elem_of_In, filter_In. split; [by apply list_elem_of_In|].
    by rewrite Hfail. }
  unfold handleValidation.
  destruct (validationResult isFloatString chains req) as [|e0 errs] eqn:Hres.
  - by apply elem_of_nil in He.
  - eexists. split; [done|]. cbn. split_and!; try done. by exists e.
Qed.

Lemma JInt_passes_isInt z :
  (Z.abs z < 10 ^ 21)%Z → passes isFloatString IsInt (JInt z) = true.
Proof.
  intros Hz. cbn [passes JInt]. unfold plain_integer, Q_is_int.
  cbn [inject_Z Qnum Qden]. rewrite Z.mod_1_r, Z.div_1_r. cbn [Z.eqb andb].
  by apply Z.ltb_lt.
Qed.

Lemma set_clause_supplied r (b : gmap string JsVal) f :
  f ∈ updatable_fields r → supplied b f = true → set_clause r b ≠ [].
Proof.
  intros Hf Hs Hnil.
  assert (f ∈ set_clause r b) as Hin.
  { unfold set_clause. apply list_elem_of_In, filter_In. by rewrite <- list_elem_of_In. }
  rewrite Hnil in Hin. by apply elem_of_nil in Hin.
Qed.

End QuantityRule.

Section Rounding.
Local Open Scope Z_scope.

Lemma pow2_pos e : (0 < pow2 e)%Q.
Proof.
  unfold pow2. destruct (0 <=? e)%Z eqn:He.
  - apply Z.leb_le in He. unfold Qlt. cbn [Qnum Qden inject_Z].
    assert (0 < 2 ^ e)%Z by (by apply Z.pow_pos_nonneg). lia.
  - done.
Qed.

Lemma nearest_double_nonneg x y :
  0 < Qnum x → nearest_double x = Some y → (0 <= y)%Q.
Proof.
  unfold nearest_double. intros Hn.
  set (u := Z.max _ _ - 52).
  set (N := if (0 <=? u)%Z then Qnum x else Qnum x * 2 ^ (- u)).
  set (D := if (0 <=? u)%Z then Z.pos (Qden x) * 2 ^ u else Z.pos (Qden x)).
  assert (HN : 0 <= N).
  { subst N. destruct (0 <=? u)%Z; [lia|]. apply Z.mul_nonneg_nonneg; [lia|].
    apply Z.pow_nonneg. lia. }
  assert (HD : 0 < D).
  { subst D. destruct (0 <=? u)%Z eqn:Hu; [|lia]. apply Z.leb_le in Hu.
    apply Z.mul_pos_pos; [lia|]. by apply Z.pow_pos_nonneg. }
  assert (Hk : 0 <= N / D) by (by apply Z.div_pos).
  set (k' := if (2 * (N mod D) <? D)%Z then N / D else _).
  assert (Hk' : 0 <= k').
  { subst k'. destruct (2 * (N mod D) <? D); [done|].
    destruct (D <? 2 * (N mod D)); [lia|]. destruct (Z.even _); lia. }
  destruct (_ && _); [done|]. intros [= <-].
  apply Qmult_le_0_compat; [|apply Qlt_le_weak, pow2_pos].
  unfold Qle. cbn. lia.
Qed.

(** A text that denotes zero or a negative number does not parse above 0. *)
Lemma nonpositive_not_exceeds x : (x <= 0)%Q → parsed_exceeds 0 x = false.
Proof.
  intros Hx. unfold parsed_exceeds.
  assert (Hn : Qnum x <= 0) by (unfold Qle in Hx; cbn in Hx; lia).
  destruct (Qnum x ?= 0) eqn:Hc.
  - done.
  - destruct (nearest_double (- x)) as [y|] eqn:Hy; [|done].
    apply negb_false_iff, Qle_bool_iff.
    apply nearest_double_nonneg in Hy.
    + apply (Qopp_le_compat 0 y) in Hy. exact Hy.
    + rewrite Z.compare_lt_iff in Hc. unfold Qopp. cbn [Qnum]. lia.
  - rewrite Z.compare_gt_iff in Hc. lia.
Qed.

Lemma log2_bounds n : 0 < n → 2 ^ Z.log2 n <= n < 2 ^ (Z.log2 n + 1).
Proof. intros Hn. pose proof (Z.log2_spec n Hn). by rewrite <- Z.add_1_r in H. Qed.

Lemma nearest_double_pos x y :
  (pow2 (-1074) <= x)%Q → nearest_double x = Some y → (0 < y)%Q.
Proof.
  unfold nearest_double. intros Hx.
  assert (Hlow : Z.pos (Qden x) <= Qnum x * 2 ^ 1074).
  { unfold Qle in Hx.
    change (Qnum (pow2 (-1074))) with 1 in Hx.
    change (QDen (pow2 (-1074))) with (Z.pos (Z.to_pos (2 ^ 1074))) in Hx.
    rewrite Z2Pos.id in Hx by (by apply Z.pow_pos_nonneg). lia. }
  assert (Hn : 0 < Qnum x).
  { destruct (Z.lt_trichotomy 0 (Qnum x)) as [?|[?|?]]; [done|..].
    - rewrite <- H in Hlow. lia.
    - assert (Qnum x * 2 ^ 1074 <= 0); [|lia].
      apply Z.mul_nonpos_nonneg; [lia|]. by apply Z.pow_nonneg. }
  destruct (log2_bounds (Qnum x) Hn) as [Ha _].
  destruct (log2_bounds (Z.pos (Qden x)) ltac:(lia)) as [_ Hb].
  pose proof (Z.log2_nonneg (Qnum x)) as Ha0.
  pose proof (Z.log2_nonneg (Z.pos (Qden x))) as Hb0.
  set (a := Z.log2 (Qnum x)) in *. set (b := Z.log2 (Z.pos (Qden x))) in *.
  match goal with |- context [Z.max ?e _] => set (e1 := e) end.
  assert (He1 : e1 <= a - b)
    by (subst e1; match goal with |- (if ?c then _ else _) <= _ => destruct c end; lia).
  set (u := Z.max e1 (-1022) - 52).
  set (N := if (0 <=? u)%Z then Qnum x else Qnum x * 2 ^ (- u)).
  set (D := if (0 <=? u)%Z then Z.pos (Qden x) * 2 ^ u else Z.pos (Qden x)).
  assert (HD : 0 < D).
  { subst D. destruct (0 <=? u)%Z eqn:Hu; [|lia]. apply Z.leb_le in Hu.
    apply Z.mul_pos_pos; [lia|]. by apply Z.pow_pos_nonneg. }
  assert (HND : D <= N).
  { subst N D. destruct (0 <=? u)%Z eqn:Hu.
    - apply Z.leb_le in Hu.
      assert (Z.pos (Qden x) * 2 ^ u <= 2 ^ (b + 1) * 2 ^ u)
        by (apply Z.mul_le_mono_nonneg_r; [by apply Z.pow_nonneg|lia]).
      rewrite <- Z.pow_add_r in H by lia.
      assert (2 ^ (b + 1 + u) <= 2 ^ a) by (apply Z.pow_le_mono_r; lia).
      lia.
    - apply Z.leb_gt in Hu.
      destruct (Z.max_spec e1 (-1022)) as [[Hlt Hmax]|[Hle Hmax]].
      + assert (Hu' : - u = 1074) by lia. by rewrite Hu'.
      + assert (2 ^ (b + 1) <= Qnum x * 2 ^ (- u)); [|lia].
        destruct (Z.le_gt_cases (b + 1) a) as [Hba|Hba].
        * assert (2 ^ (b + 1) <= 2 ^ a) by (apply Z.pow_le_mono_r; lia).
          assert (1 <= 2 ^ (- u)) by (apply (Z.pow_le_mono_r 2 0); lia).
          nia.
        * assert (2 ^ a * 2 ^ (- u) <= Qnum x * 2 ^ (- u))
            by (apply Z.mul_le_mono_nonneg_r; [apply Z.pow_nonneg|]; lia).
          rewrite <- Z.pow_add_r in H by lia.
          assert (2 ^ (b + 1) <= 2 ^ (a + - u)) by (apply Z.pow_le_mono_r; lia).
          lia. }
  assert (Hk : 1 <= N / D).
  { apply Z.div_le_lower_bound; lia. }
  set (k' := if (2 * (N mod D) <? D)%Z then N / D else _).
  assert (Hk' : 1 <= k').
  { subst k'. destruct (2 * (N mod D) <? D); [done|].
    destruct (D <? 2 * (N mod D)); [lia|]. destruct (Z.even _); lia. }
  destruct (_ && _); [done|]. intros [= <-].
  apply Qmult_lt_0_compat; [|apply pow2_pos].
  unfold Qlt. cbn. lia.
Qed.

(** A text that denotes at least the least positive double parses above 0. *)
Lemma positive_exceeds x : (pow2 (-1074) <= x)%Q → parsed_exceeds 0 x = true.
Proof.
  intros Hx. unfold parsed_exceeds.
  assert (Hpos : (0 < x)%Q) by (eapply Qlt_le_trans; [apply pow2_pos|done]).
  assert (Hn : 0 < Qnum x) by (unfold Qlt in Hpos; cbn in Hpos; lia).
  apply Z.compare_gt_iff in Hn. rewrite Hn.
  destruct (nearest_double x) as [y|] eqn:Hy; [|done].
  apply negb_true_iff, not_true_is_false. rewrite Qle_bool_iff.
  apply Qlt_not_le. by eapply nearest_double_pos.
Qed.
End Rounding.

Lemma quantity_fails v q :
  quantity v = Some q → (q <= 0)%Q →
  passes validator_isFloat (IsFloat (Some 0%Q)) v = false.
Proof.
  intros Hq Hneg. destruct v as [| | |q'|s]; try done.
  - injection Hq as ->. cbn. apply negb_false_iff. by apply Qle_bool_iff.
  - cbn in Hq |- *. unfold validator_isFloat.
    destruct (float_text s) as [t|]; [|done]. cbn in Hq. rewrite Hq.
    rewrite (nonpositive_not_exceeds _ Hneg). apply andb_false_r.
Qed.

Lemma quantity_passes v q :
  quantity v = Some q →
  match v with JNum _ => (0 < q)%Q | _ => (pow2 (-1074) <= q)%Q end →
  passes validator_isFloat (IsFloat (Some 0%Q)) v = true.
Proof.
  intros Hq Hpos. destruct v as [| | |q'|s]; try done.
  - injection Hq as ->. cbn. apply negb_true_iff, not_true_is_false.
    rewrite Qle_bool_iff. by apply Qlt_not_le.
  - cbn in Hq |- *. unfold validator_isFloat.
    destruct (existsb (String.eqb s) [""; "."; "-"; "+"]) eqn:Hex.
    { cbn in Hex. rewrite !orb_true_iff in Hex.
      destruct Hex as [H|[H|[H|[H|H]]]]; try done;
        apply String.eqb_eq in H; subst s; vm_compute in Hq; discriminate. }
    destruct (float_text s) as [t|]; [|done]. cbn in Hq. rewrite Hq.
    by rewrite (positive_exceeds _ Hpos).
Qed.

Section QuantityCheck.
Context {Store : Type}.
Variable getPool : Store → option (Pool Store).

(** C8. For producto_ingrediente a [cantidad_usada] that reads as zero or
    as a negative number, sent as a number or as a numeral, is refused by
    Create and by Partial Update with a validation failure (400) naming the
    field, and the world is left as it was: no query is made.  A strictly
    positive one, 0.25 for one, passes validation when the other fields do,
    and with the pool at hand the write is the first statement issued.  The
    float check is the library's, which reads a text through [parseFloat]: a
    positive numeral passes from the least positive double on. *)
Theorem cantidad_usada_must_be_positive op req (w : World Store) v q :
  op = Create ∨ op = PartialUpdate →
  body req !! "cantidad_usada" = Some v →
  quantity v = Some q →
  ((q <= 0)%Q →
     ∃ resp, api validator_isFloat getPool ProductoIngrediente op req w = (resp, w) ∧
       status resp = 400 ∧ ok resp = false ∧
       ∃ e, e ∈ errors resp ∧ ve_path e = "cantidad_usada") ∧
  (match v with JNum _ => (0 < q)%Q | _ => (pow2 (-1074) <= q)%Q end →
     (∀ f, f ∈ ["producto_id"; "ingrediente_id"] →
        ∃ z, body req !! f = Some (JInt z) ∧ (Z.abs z < 10 ^ 21)%Z) →
     (op = PartialUpdate → ∃ n, has_int_id req n) →
     ∀ resp w',
       api validator_isFloat getPool ProductoIngrediente op req w = (resp, w') →
       errors resp = [] ∧ status resp ≠ 400 ∧
       (is_Some (getPool (store w)) →
          ∃ o rest,
            issued w w'
              ((if op is Create then insert_event ProductoIngrediente req o
                else update_event ProductoIngrediente req o) :: rest))).
Proof.
  intros Hop Hv Hq. pose proof (prop_present _ _ _ Hv) as Hprop.
  assert (Hdef : is_defined v = true) by (by destruct v).
  split.
  - intros Hneg. pose proof (quantity_fails _ _ Hq Hneg) as Hfail.
    destruct Hop as [-> | ->].
    + destruct (handleValidation_rejects validator_isFloat
                  [body_ "producto_id" |> isInt; body_ "ingrediente_id" |> isInt;
                   body_ "cantidad_usada" |> isFloat_gt 0]
                  req (body_ "cantidad_usada" |> isFloat_gt 0) (IsFloat (Some 0%Q)))
        as (resp & Hval & Hrest).
      * by repeat constructor.
      * done.
      * cbn. by repeat constructor.
      * cbn [field_value ch_location ch_field isFloat_gt chained body_]. by rewrite Hprop.
      * exists resp. split; [|done].
        unfold api, producto_ingrediente_post, route. by rewrite Hval.
    + destruct (handleValidation_rejects validator_isFloat
                  (update_rules ProductoIngrediente)
                  req (body_ "cantidad_usada" |> optional |> isFloat_gt 0)
                  (IsFloat (Some 0%Q)))
        as (resp & Hval & Hrest).
      * cbn. by repeat constructor.
      * cbn [field_value ch_location ch_field ch_optional isFloat_gt chained optional body_].
        by rewrite Hprop, Hdef.
      * cbn. by repeat constructor.
      * cbn [field_value ch_location ch_field isFloat_gt chained optional body_].
        by rewrite Hprop.
      * exists resp. split; [|done].
        rewrite api_partial_update. unfold partial_update, route. by rewrite Hval.
  - intros Hpos Hints Hid resp w' H.
    pose proof (quantity_passes _ _ Hq Hpos) as Hpass.
    destruct (Hints "producto_id") as (zp & Hp & Hzp); [by repeat constructor|].
    destruct (Hints "ingrediente_id") as (zi & Hi & Hzi); [by repeat constructor|].
    apply prop_present in Hp, Hi.
    destruct Hop as [-> | ->].
    + assert (Hval : handleValidation validator_isFloat
                [body_ "producto_id" |> isInt; body_ "ingrediente_id" |> isInt;
                 body_ "cantidad_usada" |> isFloat_gt 0] req = None).
      { apply handleValidation_None.
        repeat first [apply Forall_nil_2 | apply Forall_cons_2];
          apply run_chain_ok; cbn [field_value ch_location ch_field ch_validators
            isFloat_gt isInt chained body_ app forallb];
          rewrite ?Hp, ?Hi, ?Hprop, ?Hpass, ?JInt_passes_isInt by done; done. }
      unfold api, producto_ingrediente_post, route in H. rewrite Hval in H.
      unfold issued, insert_event.
      run H; injection H as <- <-; cbn [errors status json log];
        (split_and!; [done|done|]); intros [pool' Hpool];
        first [ congruence
              | eexists _, _; first [reflexivity | by rewrite <- app_assoc] ].
    + destruct Hid as [n Hn]; [done|].
      assert (Hval : handleValidation validator_isFloat
                       (update_rules ProductoIngrediente) req = None).
      { apply handleValidation_None. cbn [update_rules].
        repeat first [apply Forall_nil_2 | apply Forall_cons_2];
          [by eapply run_chain_id|..];
          apply run_chain_ok; cbn [field_value ch_location ch_field ch_validators
            isFloat_gt isInt chained optional body_ app forallb];
          rewrite ?Hp, ?Hi, ?Hprop, ?Hpass, ?JInt_passes_isInt by done; done. }
      rewrite api_partial_update in H. unfold partial_update, route in H.
      rewrite Hval in H.
      pose proof (set_clause_supplied ProductoIngrediente (body req)
                    "cantidad_usada") as Hne.
      unfold issued, update_event.
      destruct (set_clause ProductoIngrediente (body req)) eqn:Hcols.
      { exfalso. apply Hne; [by repeat constructor| |done]. unfold supplied.
        by rewrite Hprop. }
      run H; injection H as <- <-; cbn [errors status json log];
        (split_and!; [done|done|]); intros [pool' Hpool];
        first [ congruence
              | eexists _, _; first [reflexivity | by rewrite <- app_assoc] ].
Qed.
End QuantityCheck.

(** ** Booleans on the write paths *)

Lemma coerced_boolean r (b : gmap string JsVal) f (v : bool) :
  boolean_field r f = true → b !! f = Some (JBool v) →
  coerced r b f = JInt (if v then 1 else 0).
Proof.
  intros Hf Hb. unfold coerced. rewrite Hf, (prop_present _ _ _ Hb). by destruct v.
Qed.

(** C2 (defect). Create of productos hands [disponible: false] to the pool as
    the boolean it received, fifth parameter of the INSERT; the Partial Update
    of productos and the Create of ingredientes hand over 0 for the same
    input. *)
Theorem producto_create_sends_boolean_uncoerced isFloatString :
  ev_params <$> log (api isFloatString Mem.getPool Producto Create
      (request "" [("categoria_id", JInt 1); ("nombre", JStr "Cheeseburger");
                   ("precio", JNum (455 # 10)); ("disponible", JBool false)])
      category_world).2
  = [[JInt 1; JStr "Cheeseburger"; JNull; JNum (455 # 10); JBool false]; [JInt 1]]
  ∧ ev_params <$> log (api isFloatString Mem.getPool Producto PartialUpdate
      (request "1" [("disponible", JBool false)]) fresh_world).2
  = [[JInt 0; JStr "1"]]
  ∧ ev_params <$> log (api isFloatString Mem.getPool Ingrediente Create
      (request "" [("nombre", JStr "Queso amarillo"); ("perecedero", JBool false)])
      fresh_world).2
  = [[JStr "Queso amarillo"; JInt 0]; [JInt 1]].
Proof. split_and!; vm_compute; reflexivity. Qed.

(** ** The properties at sample requests *)

Lemma partial_update_nothing_to_update_witness :
  let req := request "1" [("color", JStr "rojo")] in
  (∀ f, f ∈ updatable_fields Producto → body req !! f = None) ∧
  sample Producto PartialUpdate req menu_world
  = (json 400 false "Nada para actualizar" Absent, menu_world).
Proof.
  intros req.
  assert (Hnone : ∀ f, f ∈ updatable_fields Producto → body req !! f = None).
  { intros f Hf. cbn in Hf. members Hf; vm_compute; reflexivity. }
  split; [exact Hnone|].
  destruct (partial_update_nothing_to_update sample_float_check Mem.getPool
              Producto req menu_world Hnone) as (resp & Hrun & _ & _ & _ & Hmsg).
  unfold sample. rewrite Hrun. f_equal. apply (Hmsg 1).
  exists "1". split; vm_compute; reflexivity.
Defined.

Lemma partial_update_sets_supplied_fields_only_witness :
  let req := request "1" [("precio", JNum 50); ("color", JStr "rojo")] in
  let run := sample Producto PartialUpdate req menu_world in
  has_int_id req 1 ∧
  status run.1 = 200 ∧
  (∃ o rest, issued menu_world run.2 (update_event Producto req o :: rest)) ∧
  ∃ row row',
    Mem.rows (Mem.productos (store menu_world)) !! 1 = Some row ∧
    Mem.rows (Mem.productos (store run.2)) !! 1 = Some row' ∧
    row' !! "precio" = Some (JNum 50) ∧
    row' !! "nombre" = row !! "nombre" ∧
    row' !! "color" = row !! "color".
Proof.
  intros req run.
  assert (Hid : has_int_id req 1) by (exists "1"; split; vm_compute; reflexivity).
  destruct (partial_update_sets_supplied_fields_only sample_float_check Producto req
              menu_world 1 "precio" Hid) as (_ & Hissued & Hiff & Hframe & _).
  - vm_compute. reflexivity.
  - by repeat constructor.
  - vm_compute. reflexivity.
  - assert (Hst : status run.1 = 200).
    { apply Hiff. split; [|vm_compute; reflexivity].
      exists orphan_row. vm_compute. reflexivity. }
    split_and!; [exact Hid|exact Hst|exact Hissued|].
    destruct (Hframe Hst) as (row & row' & Hrow & Hrow' & Hkeep & Hset & _).
    assert (Hcols : set_clause Producto (body req) = ["precio"])
      by (vm_compute; reflexivity).
    rewrite Hcols in Hkeep, Hset.
    exists row, row'. split_and!; [exact Hrow|exact Hrow'|..].
    + rewrite (Hset "precio"); [reflexivity|]. by repeat constructor.
    + apply Hkeep; [|done]. apply not_elem_of_cons. split; [done|apply not_elem_of_nil].
    + apply Hkeep; [|done]. apply not_elem_of_cons. split; [done|apply not_elem_of_nil].
Defined.

Lemma zero_affected_rows_is_not_found_witness :
  let req := request "9" [] in
  let run := sample Producto Delete_ req menu_world in
  let ev := {| ev_sql := delete_text Producto; ev_params := [JStr "9"];
               ev_outcome := Resolved (ResultHeader 0 0) |} in
  issued menu_world run.2 [ev] ∧
  run.1 = json 404 false "Producto no encontrado" Absent.
Proof.
  intros req run ev.
  assert (Hi : issued menu_world run.2 [ev]) by (vm_compute; reflexivity).
  split; [exact Hi|].
  destruct (zero_affected_rows_is_not_found sample_float_check Mem.getPool
              Producto Delete_ req menu_world run.1 run.2 ev [] 0 0) as (_ & Hzero & _).
  - by right.
  - vm_compute. reflexivity.
  - exact Hi.
  - reflexivity.
  - by destruct Hzero.
Defined.

Lemma get_by_id_not_found_iff_no_rows_witness :
  has_int_id (request "1" []) 1 ∧ has_int_id (request "7" []) 7 ∧
  (sample Producto GetById (request "1" []) menu_world).1
  = json 200 true "Consulta realizada correctamente" (OneRow cheeseburger) ∧
  (sample Producto GetById (request "7" []) menu_world).1
  = json 404 false "Producto no encontrado" Absent ∧
  log (sample Producto GetById (request "7" []) menu_world).2
  = (log menu_world
     ++ [reread_event Producto (JStr "7") (Resolved (ResultRows []))])%list.
Proof.
  assert (Hid1 : has_int_id (request "1" []) 1)
    by (exists "1"; split; vm_compute; reflexivity).
  assert (Hid7 : has_int_id (request "7" []) 7)
    by (exists "7"; split; vm_compute; reflexivity).
  destruct (get_by_id_not_found_iff_no_rows sample_float_check Mem.getPool Producto
              (request "1" []) menu_world 1 Mem.pool Hid1 eq_refl)
    as (_ & _ & _ & Hfound).
  destruct (get_by_id_not_found_iff_no_rows sample_float_check Mem.getPool Producto
              (request "7" []) menu_world 7 Mem.pool Hid7 eq_refl)
    as (Hworld & _ & Hmissing & _).
  split_and!; [exact Hid1|exact Hid7|..].
  - apply (Hfound cheeseburger []). vm_compute. reflexivity.
  - apply Hmissing. vm_compute. reflexivity.
  - unfold sample. rewrite Hworld. vm_compute. reflexivity.
Defined.

Lemma write_returns_reread_row_witness :
  let req := request "" [("categoria_id", JStr "1"); ("nombre", JStr "Doble");
                         ("precio", JNum 60); ("disponible", JBool true)] in
  let run := sample Producto Create req menu_world in
  status run.1 = 201 ∧
  ∃ rows, data run.1 = first_row rows ∧
    last (log run.2) = Some (reread_event Producto (JInt 2) (Resolved rows)).
Proof.
  intros req run.
  assert (Hst : status run.1 = 201) by (vm_compute; reflexivity).
  split; [exact Hst|].
  destruct (write_returns_reread_row sample_float_check Mem.getPool
              Producto Create req menu_world run.1 run.2) as [Hwrite _].
  - by left.
  - vm_compute. reflexivity.
  - exact Hst.
  - destruct Hwrite as (e1 & res & e2 & rows & Hi & Ho & -> & Hdata).
    exists rows. split; [exact Hdata|].
    unfold issued in Hi. rewrite Hi, last_app. cbn [last].
    assert (He1 : head (drop (length (log menu_world)) (log run.2)) = Some e1)
      by (by rewrite Hi, drop_app_length).
    vm_compute in He1. injection He1 as <-. cbn in Ho. injection Ho as <-.
    reflexivity.
Defined.

Lemma cantidad_usada_must_be_positive_witness :
  let fields v := [("producto_id", JInt 1); ("ingrediente_id", JInt 1);
                   ("cantidad_usada", v)] in
  let answer v := sample ProductoIngrediente Create (request "" (fields v)) menu_world in
  (answer (JNum 0)).2 = menu_world ∧
  status (answer (JNum 0)).1 = 400 ∧
  status (answer (JStr "-1")).1 = 400 ∧
  status (answer (JNum (1 # 4))).1 ≠ 400 ∧
  status (answer (JStr "0.25")).1 ≠ 400.
Proof.
  intros fields answer.
  assert (Hrule : ∀ v q, quantity v = Some q → _) by
    (intros v q; apply (cantidad_usada_must_be_positive Mem.getPool Create
       (request "" (fields v)) menu_world v q);
     [by left|cbn; by rewrite !lookup_insert_ne, lookup_insert_eq by done]).
  assert (Hints : ∀ v f, f ∈ ["producto_id"; "ingrediente_id"] →
            ∃ z, body (request "" (fields v)) !! f = Some (JInt z) ∧ (Z.abs z < 10 ^ 21)%Z).
  { intros v f Hf. exists 1. split; [|done].
    members Hf; cbn; by rewrite ?lookup_insert_ne, lookup_insert_eq by done. }
  destruct (Hrule (JNum 0) 0%Q eq_refl) as [Hzero _].
  destruct Hzero as (resp0 & Hrun0 & Hst0 & _); [done|].
  destruct (Hrule (JStr "-1") (-1)%Q) as [Hminus _]; [vm_compute; reflexivity|].
  destruct Hminus as (resp1 & Hrun1 & Hst1 & _); [done|].
  destruct (Hrule (JNum (1 # 4)) (1 # 4) eq_refl) as [_ Hquarter].
  destruct (Hrule (JStr "0.25") (25 # 100)) as [_ Htext]; [vm_compute; reflexivity|].
  subst answer. unfold sample, sample_float_check. cbn beta. rewrite Hrun0, Hrun1.
  split_and!; [reflexivity|exact Hst0|exact Hst1|..].
  - eapply Hquarter; [done|apply Hints|discriminate|apply surjective_pairing].
  - eapply Htext; [vm_compute; discriminate|apply Hints|discriminate
                  |apply surjective_pairing].
Defined.

Lemma update_columns_from_allow_list_witness :
  let req := request "1" [("precio", JNum 50); ("nombre = 'x', id", JStr "y")] in
  let run := sample Producto PartialUpdate req menu_world in
  let evs := drop (length (log menu_world)) (log run.2) in
  issued menu_world run.2 evs ∧
  ev_sql <$> evs = ["UPDATE productos SET precio = ? WHERE id = ?"; projection_by_id Producto] ∧
  ∀ ev, ev ∈ evs →
    ev_sql ev = update_text Producto ["precio"] ∨ ev_sql ev = projection_by_id Producto.
Proof.
  intros req run evs.
  assert (Hi : issued menu_world run.2 evs) by (vm_compute; reflexivity).
  split_and!; [exact Hi|vm_compute; reflexivity|].
  destruct (update_columns_from_allow_list sample_float_check Mem.getPool
              Producto req menu_world run.1 run.2 evs) as (_ & Hsql & _).
  - vm_compute. reflexivity.
  - exact Hi.
  - assert (Hcols : set_clause Producto (body req) = ["precio"])
      by (vm_compute; reflexivity).
    rewrite Hcols in Hsql. exact Hsql.
Defined.

Lemma orphan_rows_are_hidden_witness :
  Mem.rows (Mem.table Producto (store orphan_world)) !! 1 = Some orphan_row ∧
  parent_missing Producto (store orphan_world) orphan_row ∧
  (sample Producto GetById (request "1" []) orphan_world).1
  = json 404 false "Producto no encontrado" Absent ∧
  let req := request "1" [("precio", JNum 50)] in
  let run := sample Producto PartialUpdate req orphan_world in
  status run.1 = 200 ∧ data run.1 = Absent ∧
  is_Some (Mem.rows (Mem.productos (store run.2)) !! 1).
Proof.
  assert (Hrow : Mem.rows (Mem.table Producto (store orphan_world)) !! 1 = Some orphan_row)
    by (vm_compute; reflexivity).
  assert (Hmiss : parent_missing Producto (store orphan_world) orphan_row).
  { intros k _. rewrite orphan_parent_gone. apply lookup_empty. }
  destruct (orphan_rows_are_hidden sample_float_check Producto (store orphan_world)
              1 orphan_row Hrow Hmiss) as (_ & Hget & Hreread).
  split_and!; [exact Hrow|exact Hmiss|..].
  - assert (Hw : orphan_world = {| store := store orphan_world; log := log orphan_world |})
      by (vm_compute; reflexivity).
    unfold sample. rewrite Hw. apply Hget.
    exists "1". split; vm_compute; reflexivity.
  - intros req run.
    destruct (Hreread Mem.Db Mem.getPool PartialUpdate req orphan_world run.1 run.2
                (update_event Producto req (Resolved (ResultHeader 1 0)))
                (reread_event Producto (JStr "1") (Resolved (ResultRows []))))
      as (Hst & _ & Hdata).
    + by right.
    + apply surjective_pairing.
    + vm_compute. reflexivity.
    + reflexivity.
    + split_and!; [exact Hst|exact Hdata|].
      assert (Hkept : Mem.rows (Mem.productos (store run.2)) !! 1
                      = Some (<["precio" := JNum 50]> orphan_row))
        by (vm_compute; reflexivity).
      rewrite Hkept. by eexists.
Defined.

(** * Further properties of the routes *)

(** ** Statements and their parameters *)

Lemma update_text_placeholders r cols :
  cols `sublist_of` updatable_fields r →
  placeholder_count (update_text r cols) = S (length cols).
Proof.
  intros Hsub. destruct r; cbn [updatable_fields] in Hsub.
  all: repeat match goal with
       | H : _ `sublist_of` (_ :: _) |- _ => inversion H; clear H; subst
       | H : _ `sublist_of` [] |- _ => inversion H; clear H; subst
       end.
  all: vm_compute; reflexivity.
Qed.

Section Budget.
Context {Store : Type}.
Variable isFloatString : option Q → string → bool.
Variable getPool : Store → option (Pool Store).

(** X1. Whatever the pool answers, a request makes at most one call to
    [pool.query], or two for Create and Partial Update, and every call passes
    exactly as many values as its statement has [?] placeholders. *)
Theorem statements_are_few_and_balanced r op req (w : World Store) resp w' evs :
  api isFloatString getPool r op req w = (resp, w') →
  issued w w' evs →
  (length evs ≤ statement_budget op)%nat ∧ Forall balanced evs.
Proof.
  intros H Hi.
  destruct op; [| | |rewrite api_partial_update in H|]; [destruct r..| |destruct r];
    run H; injection H as <- <-; events Hi.
  all: split; [cbn; lia|].
  all: repeat first [apply Forall_nil_2 | apply Forall_cons_2]; unfold balanced;
       cbn [ev_sql ev_params].
  all: try (vm_compute; reflexivity).
  all: try (destruct r; vm_compute; reflexivity).
  all: pose proof (set_clause_sublist r (body req)) as Hsub;
       match goal with Hc : set_clause _ _ = _ |- _ => rewrite Hc in Hsub end.
  all: rewrite (update_text_placeholders _ _ Hsub); cbn [length]; f_equal.
  all: by rewrite length_app, length_fmap, Nat.add_1_r.
Qed.
End Budget.

(** ** The shape of the answers *)

Section Envelope.
Context {Store : Type}.
Variable isFloatString : option Q → string → bool.
Variable getPool : Store → option (Pool Store).

Lemma no_chain_no_failure req resp :
  handleValidation isFloatString [] req = Some resp → False.
Proof. done. Qed.

(** X2. The answer of every route has one of the status codes of its
    operation; [ok] is true exactly at the success code (201 for Create, 200
    otherwise); an answer with [ok] false carries no [data]; and an answer
    that lists validation errors is a 400 sent before any query. *)
Theorem envelope_is_uniform r op req (w : World Store) resp w' :
  api isFloatString getPool r op req w = (resp, w') →
  status resp ∈ may_answer op ∧
  (ok resp = true ↔ status resp = success_status op) ∧
  (ok resp = false → data resp = Absent) ∧
  (errors resp ≠ [] → status resp = 400 ∧ w' = w).
Proof.
  intros H.
  destruct op; [| | |rewrite api_partial_update in H|]; [destruct r..| |destruct r];
    run H; injection H as <- <-.
  all: try match goal with
       | Hv : handleValidation _ [] _ = Some _ |- _ => by apply no_chain_no_failure in Hv
       | Hv : handleValidation _ _ _ = Some _ |- _ =>
           apply handleValidation_failure in Hv as (Hst & Hok & Hdata & Herr);
           rewrite Hst, Hok
       end.
  all: cbn [status ok data errors json may_answer success_status].
  all: split_and!; try done; try (by repeat constructor); try (by destruct w).
Qed.

(** X3. A rejected query is the last call of its request, and the request
    is answered 500 with [ok] false and no [data]: no route goes on after a
    failed statement. *)
Theorem rejected_query_ends_the_run r op req (w : World Store) resp w' evs ev :
  api isFloatString getPool r op req w = (resp, w') →
  issued w w' evs →
  ev ∈ evs → ev_outcome ev = Rejected →
  last evs = Some ev ∧ status resp = 500 ∧ ok resp = false ∧ data resp = Absent.
Proof.
  intros H Hi Hev Ho.
  destruct op; [| | |rewrite api_partial_update in H|]; [destruct r..| |destruct r];
    run H; injection H as <- <-; events Hi.
  all: members Hev; try (cbn in Ho; discriminate Ho); done.
Qed.
End Envelope.

(** ** Requests refused by validation *)

Section Gate.
Context {Store : Type}.
Variable isFloatString : option Q → string → bool.
Variable getPool : Store → option (Pool Store).

(** X4. Get by Id, Partial Update and Delete refuse an [:id] that is not an
    integer numeral with 400 and an error on [id], without any query. *)
Theorem malformed_id_is_refused r op req (w : World Store) s :
  op = GetById ∨ op = PartialUpdate ∨ op = Delete_ →
  params req !! "id" = Some (JStr s) →
  int_of_string s = None →
  ∃ resp, api isFloatString getPool r op req w = (resp, w) ∧
    status resp = 400 ∧ ok resp = false ∧ data resp = Absent ∧
    ∃ e, e ∈ errors resp ∧ ve_path e = "id".
Proof.
  intros Hop Hs Hn.
  assert (Hfail : passes isFloatString IsInt (field_value (param "id" |> isInt) req) = false).
  { cbn. rewrite (prop_present _ _ _ Hs). cbn. by rewrite Hn. }
  assert (Hgate : ∀ chains, (param "id" |> isInt) ∈ chains →
            ∃ resp, handleValidation isFloatString chains req = Some resp ∧
              status resp = 400 ∧ ok resp = false ∧ data resp = Absent ∧
              ∃ e, e ∈ errors resp ∧ ve_path e = "id").
  { intros chains Hc.
    destruct (handleValidation_rejects isFloatString chains req (param "id" |> isInt) IsInt)
      as (resp & Hv & Hst & Hok & He); [done|done|by repeat constructor|done|].
    exists resp. split_and!; try done.
    by destruct (handleValidation_failure _ _ _ _ Hv) as (_ & _ & ? & _). }
  destruct Hop as [-> | [-> | ->]].
  - destruct (Hgate [param "id" |> isInt]) as (resp & Hv & Hrest); [by repeat constructor|].
    exists resp. split; [|done].
    destruct r; unfold api, categorias_get_by_id, productos_get_by_id,
      ingredientes_get_by_id, producto_ingrediente_get_by_id, route; by rewrite Hv.
  - destruct (Hgate (update_rules r)) as (resp & Hv & Hrest);
      [destruct r; by repeat constructor|].
    exists resp. split; [|done].
    rewrite api_partial_update. unfold partial_update, route. by rewrite Hv.
  - destruct (Hgate [param "id" |> isInt]) as (resp & Hv & Hrest); [by repeat constructor|].
    exists resp. split; [|done].
    destruct r; unfold api, categorias_delete, productos_delete,
      ingredientes_delete, producto_ingrediente_delete, route; by rewrite Hv.
Qed.

(** X5. Create refuses a body that lacks one of the required fields of the
    resource with 400 and an error on that field, without any query. *)
Theorem create_requires_fields r req (w : World Store) f :
  f ∈ required_fields r →
  body req !! f = None →
  ∃ resp, api isFloatString getPool r Create req w = (resp, w) ∧
    status resp = 400 ∧ ok resp = false ∧
    ∃ e, e ∈ errors resp ∧ ve_path e = f.
Proof.
  intros Hf Hb.
  assert (Hgate : ∀ chains c v,
            c ∈ chains → ch_optional c = false → ch_location c = InBody →
            ch_field c = f → v ∈ ch_validators c →
            passes isFloatString v JUndefined = false →
            ∃ resp, handleValidation isFloatString chains req = Some resp ∧
              status resp = 400 ∧ ok resp = false ∧
              ∃ e, e ∈ errors resp ∧ ve_path e = f).
  { intros chains c v Hc Hopt Hloc Hfield Hv Hpass.
    assert (Hval : field_value c req = JUndefined).
    { unfold field_value. rewrite Hloc, Hfield. by apply prop_absent. }
    destruct (handleValidation_rejects isFloatString chains req c v)
      as (resp & Hh & Hrest); try done.
    - by rewrite Hopt.
    - by rewrite Hval.
    - exists resp. by rewrite <- Hfield. }
  destruct r; cbn in Hf; members Hf.
  all: match goal with
       | |- context [api _ _ Categoria] =>
           destruct (Hgate [body_ "nombre" |> isString |> notEmpty]
                       (body_ "nombre" |> isString |> notEmpty) IsString)
             as (resp & Hv & Hrest)
       | |- context [api _ _ Ingrediente] =>
           destruct (Hgate [body_ "nombre" |> isString |> notEmpty;
                            body_ "perecedero" |> optional |> isBoolean]
                       (body_ "nombre" |> isString |> notEmpty) IsString)
             as (resp & Hv & Hrest)
       | |- context [api _ _ Producto] =>
           first
             [ destruct (Hgate [body_ "categoria_id" |> isInt;
                                body_ "nombre" |> isString |> notEmpty;
                                body_ "precio" |> isFloat;
                                body_ "descripcion" |> optional |> isString;
                                body_ "disponible" |> optional |> isBoolean]
                           (body_ "categoria_id" |> isInt) IsInt
                           ltac:(by repeat constructor) eq_refl eq_refl eq_refl)
                 as (resp & Hv & Hrest)
             | destruct (Hgate [body_ "categoria_id" |> isInt;
                                body_ "nombre" |> isString |> notEmpty;
                                body_ "precio" |> isFloat;
                                body_ "descripcion" |> optional |> isString;
                                body_ "disponible" |> optional |> isBoolean]
                           (body_ "nombre" |> isString |> notEmpty) IsString
                           ltac:(by repeat constructor) eq_refl eq_refl eq_refl)
                 as (resp & Hv & Hrest)
             | destruct (Hgate [body_ "categoria_id" |> isInt;
                                body_ "nombre" |> isString |> notEmpty;
                                body_ "precio" |> isFloat;
                                body_ "descripcion" |> optional |> isString;
                                body_ "disponible" |> optional |> isBoolean]
                           (body_ "precio" |> isFloat) (IsFloat None)
                           ltac:(by repeat constructor) eq_refl eq_refl eq_refl)
                 as (resp & Hv & Hrest) ]
       | |- context [api _ _ ProductoIngrediente] =>
           first
             [ destruct (Hgate [body_ "producto_id" |> isInt;
                                body_ "ingrediente_id" |> isInt;
                                body_ "cantidad_usada" |> isFloat_gt 0]
                           (body_ "producto_id" |> isInt) IsInt
                           ltac:(by repeat constructor) eq_refl eq_refl eq_refl)
                 as (resp & Hv & Hrest)
             | destruct (Hgate [body_ "producto_id" |> isInt;
                                body_ "ingrediente_id" |> isInt;
                                body_ "cantidad_usada" |> isFloat_gt 0]
                           (body_ "ingrediente_id" |> isInt) IsInt
                           ltac:(by repeat constructor) eq_refl eq_refl eq_refl)
                 as (resp & Hv & Hrest)
             | destruct (Hgate [body_ "producto_id" |> isInt;
                                body_ "ingrediente_id" |> isInt;
                                body_ "cantidad_usada" |> isFloat_gt 0]
                           (body_ "cantidad_usada" |> isFloat_gt 0) (IsFloat (Some 0%Q))
                           ltac:(by repeat constructor) eq_refl eq_refl eq_refl)
                 as (resp & Hv & Hrest) ]
       end.
  all: try done; try (by repeat constructor).
  all: exists resp; split; [|done].
  all: unfold api, categorias_post, productos_post, ingredientes_post,
         producto_ingrediente_post, route; by rewrite Hv.
Qed.
End Gate.

(** ** Parameters are never undefined *)

Section NoUndefined.
Context {Store : Type}.
Variable isFloatString : option Q → string → bool.
Variable getPool : Store → option (Pool Store).

Lemma nullish_defined x d : is_defined d = true → is_defined (nullish x d) = true.
Proof. by destruct x. Qed.

Lemma undefined_fails v : passes isFloatString v JUndefined = false.
Proof. by destruct v as [| | |[g|]|]. Qed.

Lemma demanded_is_defined chains req loc f :
  handleValidation isFloatString chains req = None →
  demands chains loc f = true →
  is_defined (match loc with
              | InBody => prop (body req) f
              | InParam => prop (params req) f
              end) = true.
Proof.
  intros Hv Hd. apply handleValidation_None in Hv.
  apply existsb_exists in Hd as (c & Hc & Hd).
  repeat (apply andb_prop in Hd as [Hd ?]).
  apply list_elem_of_In in Hc. rewrite Forall_forall in Hv. specialize (Hv c Hc).
  assert (field_value c req = match loc with
                              | InBody => prop (body req) f
                              | InParam => prop (params req) f
                              end) as <-.
  { unfold field_value. apply String.eqb_eq in H1 as ->.
    by destruct (ch_location c), loc. }
  unfold run_chain in Hv. destruct (ch_optional c); [done|]. cbn in Hv.
  destruct (ch_validators c) as [|v vs]; [done|]. cbn in Hv.
  destruct (passes isFloatString v (field_value c req)) eqn:Hp; [|done].
  destruct (field_value c req); try done. by rewrite undefined_fails in Hp.
Qed.

(** X6. The first statement of a request never receives [undefined] as a
    parameter: required fields have passed validation, optional ones are
    replaced by their default or coerced. *)
Theorem first_statement_has_no_undefined r op req (w : World Store) resp w' ev rest :
  api isFloatString getPool r op req w = (resp, w') →
  issued w w' (ev :: rest) →
  Forall (λ v, is_defined v = true) (ev_params ev).
Proof.
  intros H Hi.
  destruct op; [| | |rewrite api_partial_update in H|]; [destruct r..| |destruct r];
    run H; injection H as <- <-; events Hi; cbn [ev_params].
  all: try (match goal with
            | Hv : handleValidation _ _ _ = None |- _ =>
                pose proof (λ loc f, demanded_is_defined _ req loc f Hv) as Hdef
            end).
  all: try match goal with
       | Hc : set_clause ?r ?b = ?s :: ?l |- _ =>
           change (list_fmap string JsVal ?g l) with (g <$> l);
           rewrite app_comm_cons;
           change (coerced r b s :: (coerced r b <$> l)) with (coerced r b <$> s :: l);
           rewrite <- Hc; apply Forall_app; split;
           [ apply Forall_fmap, Forall_forall; intros f Hf;
             unfold set_clause in Hf; apply list_elem_of_In, filter_In in Hf as [_ Hs];
             unfold coerced; cbn; destruct (boolean_field r f);
             [by destruct (truthy _)|done]
           | ]
       end.
  all: repeat first [apply Forall_nil_2 | apply Forall_cons_2].
  all: try (by apply (Hdef InBody)).
  all: try (by apply (Hdef InParam)).
  all: try (apply (Hdef InParam); by destruct r).
  all: try (by apply nullish_defined).
  all: match goal with
       | |- context [truthy ?x] => destruct (is_defined x); [by destruct (truthy x)|done]
       end.
Qed.
End NoUndefined.

(** ** Coercion of boolean fields *)

Section Coercion.
Context {Store : Type}.
Variable isFloatString : option Q → string → bool.
Variable getPool : Store → option (Pool Store).

Lemma boolean_field_updatable r f : boolean_field r f = true → f ∈ updatable_fields r.
Proof.
  destruct r; cbn; try done; intros ->%String.eqb_eq; by repeat constructor.
Qed.

Lemma supplied_in_set_clause r (b : gmap string JsVal) f :
  f ∈ updatable_fields r → supplied b f = true → f ∈ set_clause r b.
Proof.
  intros Hf Hs. unfold set_clause. apply list_elem_of_In, filter_In.
  by rewrite <- list_elem_of_In.
Qed.

(** X7. Where a boolean field is coerced (Partial Update of productos and
    ingredientes, Create of ingredientes), the value sent is 1 or 0 by the
    JavaScript truthiness of what the body holds, at the position of the
    field's column: the strings [false] and [0] are sent as 1. *)
Theorem coercing_paths_send_truthiness r op req (w : World Store) resp w' ev rest f :
  op = PartialUpdate ∨ (op = Create ∧ r = Ingrediente) →
  boolean_field r f = true →
  supplied (body req) f = true →
  api isFloatString getPool r op req w = (resp, w') →
  issued w w' (ev :: rest) →
  ∃ i,
    (if op is Create then updatable_fields r else set_clause r (body req)) !! i = Some f ∧
    ev_params ev !! i = Some (JInt (if truthy (prop (body req) f) then 1 else 0)).
Proof.
  intros Hop Hf Hs H Hi.
  destruct Hop as [-> | [-> ->]].
  - pose proof (supplied_in_set_clause r (body req) f (boolean_field_updatable _ _ Hf) Hs)
      as Hin.
    apply list_elem_of_lookup_1 in Hin as [i Hlook]. exists i. split; [done|].
    assert (Hev : ∃ o, ev = update_event r req o).
    { destruct (partial_update_run _ _ _ _ _ _ _ H) as
        [[-> _]|(pool & _ & _ & [(e1 & -> & _ & Hi' & _)|[(e1 & res & -> & _ & Hi' & _)|
          [(e1 & res & e2 & st & -> & -> & _ & _ & Hi' & _)
          |(e1 & res & e2 & rows & st & -> & -> & _ & _ & Hi' & _)]]])].
      - by apply issued_nothing in Hi.
      - pose proof (issued_inv _ _ _ _ Hi Hi'). simplify_eq. by eexists.
      - pose proof (issued_inv _ _ _ _ Hi Hi'). simplify_eq. by eexists.
      - pose proof (issued_inv _ _ _ _ Hi Hi'). simplify_eq. by eexists.
      - pose proof (issued_inv _ _ _ _ Hi Hi'). simplify_eq. by eexists. }
    destruct Hev as [o ->]. cbn [update_event ev_params].
    rewrite lookup_app_l by (rewrite length_fmap; by eapply lookup_lt_Some).
    rewrite list_lookup_fmap, Hlook. cbn. unfold coerced. rewrite Hf.
    by destruct (truthy _).
  - cbn in Hf. apply String.eqb_eq in Hf as ->. exists 1%nat. split; [done|].
    assert (Hev : ∃ o, ev = insert_event Ingrediente req o).
    { destruct (create_run _ _ _ _ _ _ _ H) as
        [[-> _]|(pool & _ & [(e1 & -> & _ & Hi' & _)
          |[(e1 & res & e2 & st & -> & -> & _ & _ & Hi' & _)
           |(e1 & res & e2 & rows & st & -> & -> & _ & _ & Hi' & _)]])].
      - by apply issued_nothing in Hi.
      - pose proof (issued_inv _ _ _ _ Hi Hi'). simplify_eq. by eexists.
      - pose proof (issued_inv _ _ _ _ Hi Hi'). simplify_eq. by eexists.
      - pose proof (issued_inv _ _ _ _ Hi Hi'). simplify_eq. by eexists. }
    destruct Hev as [o ->]. cbn. unfold supplied in Hs. rewrite Hs.
    by destruct (truthy _).
Qed.
End Coercion.

(** ** INSERT and DELETE on the in-memory store *)

Lemma mem_insert r ps db :
  length ps = length (updatable_fields r) →
  Mem.pool (insert_text r) ps db
  = match Mem.rows (Mem.table r db) !! Mem.auto_increment (Mem.table r db) with
    | Some _ => (Rejected, db)
    | None =>
        if negb (Mem.references_hold r db (zip (updatable_fields r) ps))
        then (Rejected, db)
        else (Resolved (ResultHeader 1 (Mem.auto_increment (Mem.table r db))),
              after_insert r ps db)
    end.
Proof.
  intros Hlen. unfold Mem.pool. rewrite mem_parse_insert. unfold Mem.run.
  replace (length ps =? length (Mem.data_columns r))%nat with true
    by (symmetry; apply Nat.eqb_eq; rewrite Hlen; by destruct r).
  cbn [negb]. destruct (Mem.rows _ !! _); [done|]. by destruct r.
Qed.

Lemma mem_delete r id db :
  Mem.pool (delete_text r) [id] db
  = match n ← Mem.sql_int id; _ ← Mem.rows (Mem.table r db) !! n; Some n with
    | Some n => (Resolved (ResultHeader 1 0), after_delete r n db)
    | None => (Resolved (ResultHeader 0 0), db)
    end.
Proof. unfold Mem.pool. by rewrite mem_parse_delete. Qed.

Lemma create_values_length r b : length (create_values r b) = length (updatable_fields r).
Proof. by destruct r. Qed.

(** ** Delete *)

Lemma mem_delete_run isFloatString r req (w : World Mem.Db) n :
  has_int_id req n →
  api isFloatString Mem.getPool r Delete_ req w
  = match Mem.rows (Mem.table r (store w)) !! n with
    | Some _ =>
        (json 200 true (deleted_message r) Absent,
         {| store := after_delete r n (store w);
            log := (log w ++ [delete_event r req (Resolved (ResultHeader 1 0))])%list |})
    | None =>
        (json 404 false (not_found_message r) Absent,
         {| store := store w;
            log := (log w ++ [delete_event r req (Resolved (ResultHeader 0 0))])%list |})
    end.
Proof.
  intros Hid. pose proof (has_int_id_sql_int _ _ Hid) as Hn.
  assert (Hm := mem_delete r (prop (params req) "id") (store w)).
  rewrite Hn in Hm. cbn [mbind option_bind] in Hm.
  destruct r; unfold api, categorias_delete, productos_delete, ingredientes_delete,
    producto_ingrediente_delete, route; rewrite (valid_id _ _ _ Hid);
    unfold try_catch, bind, await_getPool, query, ret, Mem.getPool;
    cbn beta iota zeta.
  all: match goal with
       | |- context [Mem.pool ?sql ?ps ?db] =>
           match type of Hm with
           | Mem.pool ?sql' _ _ = _ => change (Mem.pool sql ps db) with (Mem.pool sql' ps db)
           end
       end.
  all: rewrite Hm; by destruct (Mem.rows _ !! n).
Qed.

(** X8. Delete on the in-memory store answers 200 exactly when the row
    existed and 404 exactly when it did not; afterwards the row is gone, every
    other row of the table and every other table is unchanged, and Get by Id
    of the same id answers 404. *)
Theorem delete_removes_only_the_row isFloatString r req (w : World Mem.Db) n resp w' :
  has_int_id req n →
  api isFloatString Mem.getPool r Delete_ req w = (resp, w') →
  (status resp = 200 ↔ is_Some (Mem.rows (Mem.table r (store w)) !! n)) ∧
  (status resp = 404 ↔ Mem.rows (Mem.table r (store w)) !! n = None) ∧
  Mem.rows (Mem.table r (store w')) !! n = None ∧
  (∀ m, m ≠ n →
     Mem.rows (Mem.table r (store w')) !! m = Mem.rows (Mem.table r (store w)) !! m) ∧
  (∀ r', r' ≠ r → Mem.table r' (store w') = Mem.table r' (store w)) ∧
  (∀ req' lg, has_int_id req' n →
     (api isFloatString Mem.getPool r GetById req' {| store := store w'; log := lg |}).1
     = json 404 false (not_found_message r) Absent).
Proof.
  intros Hid H.
  assert (Hgone : Mem.rows (Mem.table r (store w')) !! n = None →
            ∀ req' lg, has_int_id req' n →
              (api isFloatString Mem.getPool r GetById req'
                 {| store := store w'; log := lg |}).1
              = json 404 false (not_found_message r) Absent).
  { intros Hnone req' lg Hid'. rewrite (mem_get_by_id _ _ _ _ n Hid'). cbn [fst store].
    unfold Mem.select_by_id. by rewrite (has_int_id_sql_int _ _ Hid'), Hnone. }
  rewrite (mem_delete_run _ _ _ _ n Hid) in H.
  destruct (Mem.rows (Mem.table r (store w)) !! n) as [row|] eqn:Hrow;
    injection H as <- <-; cbn [store status json] in *.
  - assert (Hnone : Mem.rows (Mem.table r (after_delete r n (store w))) !! n = None).
    { unfold after_delete. rewrite table_with_table. apply lookup_delete_eq. }
    split_and!.
    + split; [by eexists|done].
    + done.
    + done.
    + intros m Hm. unfold after_delete. rewrite table_with_table.
      by apply lookup_delete_ne.
    + intros r' Hr'. unfold after_delete. by apply table_with_table_ne.
    + by apply Hgone.
  - split_and!; try done; try (by apply Hgone); try (split; [done|by intros [? ?]]).
Qed.

Lemma foldl_assign_zip (row : gmap string JsVal) (cols : list string) (ps : list JsVal)
    i c v :
  NoDup cols → cols !! i = Some c → ps !! i = Some v →
  foldl Mem.assign row (zip cols ps) !! c = Some (Mem.sql_value v).
Proof.
  revert row ps i. induction cols as [|c' cols IH]; intros row ps i Hnd Hc Hv.
  - by rewrite lookup_nil in Hc.
  - destruct ps as [|p ps]; [by rewrite lookup_nil in Hv|].
    apply NoDup_cons in Hnd as [Hnotin Hnd]. cbn [zip zip_with foldl].
    destruct i as [|i]; simplify_eq/=.
    + rewrite foldl_assign_other; [apply lookup_insert_eq|].
      intros Hin. apply Hnotin.
      apply list_elem_of_fmap in Hin as ([c1 v1] & -> & Hz).
      by apply elem_of_zip_l in Hz.
    + by eapply IH.
Qed.

Lemma updatable_fields_NoDup r : NoDup (updatable_fields r).
Proof.
  destruct r; cbn; repeat (apply NoDup_cons_2; [|]); try apply NoDup_nil_2.
  all: repeat (rewrite not_elem_of_cons; split; [done|]); apply not_elem_of_nil.
Qed.


Lemma mem_create_run isFloatString r req (w : World Mem.Db) resp w' :
  api isFloatString Mem.getPool r Create req w = (resp, w') →
  let n := Mem.auto_increment (Mem.table r (store w)) in
  (status resp = 201 →
     Mem.rows (Mem.table r (store w)) !! n = None ∧
     store w' = after_insert r (create_values r (body req)) (store w) ∧
     resp = json 201 true (created_message r)
              (first_row (ResultRows (Mem.select_by_id r (store w') (JInt n))))) ∧
  (status resp ≠ 201 → store w' = store w).
Proof.
  intros H n.
  destruct (create_run _ _ _ _ _ _ _ H) as
    [[-> [Hs|Hs]]|(pool & Hpool & [(e1 & -> & Ha & _ & Hs)
      |[(e1 & res & e2 & st & -> & -> & Ha1 & Ha2 & _ & Hs)
       |(e1 & res & e2 & rows & st & -> & -> & Ha1 & Ha2 & _ & ->)]])];
    try (split; [by rewrite Hs|done]).
  - injection Hpool as <-. unfold answered, insert_event in Ha. cbn in Ha.
    rewrite mem_insert in Ha by apply create_values_length.
    split; [by rewrite Hs|]. intros _.
    destruct (Mem.rows _ !! _); [by simplify_eq|].
    destruct (Mem.references_hold _ _ _); cbn [negb] in Ha; by simplify_eq.
  - injection Hpool as <-. unfold answered, reread_event in Ha2. cbn in Ha2.
    rewrite mem_select_by_id in Ha2. done.
  - injection Hpool as <-.
    unfold answered, insert_event, reread_event in Ha1, Ha2.
    cbn [ev_sql ev_params ev_outcome] in Ha1, Ha2.
    rewrite mem_select_by_id in Ha2. injection Ha2 as <- <-.
    rewrite mem_insert in Ha1 by apply create_values_length.
    split; [|done]. intros _. fold n in Ha1.
    destruct (Mem.rows (Mem.table r (store w)) !! n) eqn:Hfree; [done|].
    destruct (Mem.references_hold _ _ _); [|done]. cbn [negb] in Ha1.
    injection Ha1 as <- <-. done.
Qed.

(** ** Create on the in-memory store *)

(** X9. A Create answered 201 on the in-memory store added exactly one row,
    under the next key of the table, holding the values sent column by column
    and both timestamps; the other rows and tables are unchanged.  A Create
    answered otherwise left the store as it was. *)
Theorem create_adds_one_row isFloatString r req (w : World Mem.Db) resp w' :
  api isFloatString Mem.getPool r Create req w = (resp, w') →
  let n := Mem.auto_increment (Mem.table r (store w)) in
  (status resp = 201 →
     Mem.rows (Mem.table r (store w)) !! n = None ∧
     (∃ row, Mem.rows (Mem.table r (store w')) !! n = Some row ∧
        (∀ i c v, updatable_fields r !! i = Some c →
                  create_values r (body req) !! i = Some v →
                  row !! c = Some (Mem.sql_value v)) ∧
        row !! "created_at" = Some (Mem.now (store w)) ∧
        row !! "updated_at" = Some (Mem.now (store w))) ∧
     Mem.auto_increment (Mem.table r (store w')) = n + 1 ∧
     (∀ m, m ≠ n →
        Mem.rows (Mem.table r (store w')) !! m = Mem.rows (Mem.table r (store w)) !! m) ∧
     (∀ r', r' ≠ r → Mem.table r' (store w') = Mem.table r' (store w))) ∧
  (status resp ≠ 201 → store w' = store w).
Proof.
  intros H n. destruct (mem_create_run _ _ _ _ _ _ H) as [Hok Hko].
  split; [|done]. intros Hst. destruct (Hok Hst) as (Hfree & -> & _).
  unfold after_insert. rewrite table_with_table. cbn [Mem.rows Mem.auto_increment].
  split_and!; [done| |done|..].
  - eexists. split; [apply lookup_insert_eq|]. unfold inserted_row, Mem.stamp.
    split_and!.
    + intros i c v Hc Hv.
      assert (c ≠ "updated_at" ∧ c ≠ "created_at") as [? ?].
      { apply list_elem_of_lookup_2 in Hc. destruct r; cbn in Hc; members Hc; done. }
      rewrite !lookup_insert_ne by done.
      eapply foldl_assign_zip; [apply updatable_fields_NoDup|done..].
    + rewrite lookup_insert_ne by done. apply lookup_insert_eq.
    + apply lookup_insert_eq.
  - intros m Hm. by apply lookup_insert_ne.
  - intros r' Hr'. by apply table_with_table_ne.
Qed.


(** ** Reading from the in-memory store *)

(** X11. List and Get by Id never change the in-memory store. *)
Theorem reads_leave_the_store_alone isFloatString r op req (w : World Mem.Db) :
  op = List_ ∨ op = GetById →
  store (api isFloatString Mem.getPool r op req w).2 = store w.
Proof.
  intros [-> | ->].
  - by rewrite mem_list.
  - destruct (api isFloatString Mem.getPool r GetById req w) as [resp w'] eqn:H.
    destruct (get_by_id_run _ _ _ _ _ _ _ H) as
      [[-> _]|(pool & Hpool & [(e & -> & Ha & _)|[(e & res & -> & Ha & _)
                                               |(e & res & -> & Ha & _)]])];
      [done|..]; injection Hpool as <-; unfold answered, reread_event in Ha;
      cbn [ev_sql ev_params ev_outcome] in Ha; rewrite mem_select_by_id in Ha;
      by injection Ha.
Qed.

(** X12. Get by Id answers 200 with a row exactly when List returns that
    row with that id: both read the same joined rows. *)
Theorem get_by_id_agrees_with_list isFloatString r req req0 (w : World Mem.Db) n x :
  has_int_id req n →
  (api isFloatString Mem.getPool r GetById req w).1
  = json 200 true "Consulta realizada correctamente" (OneRow x)
  ↔ ∃ l, data (api isFloatString Mem.getPool r List_ req0 w).1 = RowArray l ∧
         x ∈ l ∧ x !! "id" = Some (JInt n).
Proof.
  intros Hid. rewrite (mem_get_by_id _ _ _ _ n Hid), mem_list. cbn [fst data json].
  unfold Mem.select_by_id, Mem.select_all. rewrite (has_int_id_sql_int _ _ Hid).
  split.
  - intros H.
    destruct (Mem.rows (Mem.table r (store w)) !! n) as [row|] eqn:Hrow; [|done].
    destruct (Mem.project r (store w) n row) as [y|] eqn:Hp; [|done].
    cbn in H. injection H as ->. eexists. split; [done|]. split.
    + apply list_elem_of_fmap. exists (n, x). split; [done|].
      apply elem_of_sorted_joined. eauto.
    + by eapply project_id.
  - intros (l & [= <-] & Hin & Hx).
    apply list_elem_of_fmap in Hin as ([m y] & -> & Hin). cbn in Hx.
    apply elem_of_sorted_joined in Hin as (row & Hrow & Hp).
    rewrite (project_id _ _ _ _ _ Hp) in Hx. injection Hx as ->.
    by rewrite Hrow, Hp.
Qed.

(** ** Partial Update that does not succeed *)

(** X13. A Partial Update with a well-formed id on the in-memory store
    answers 200, 400, 404 or 500: 404 only when the row is missing; 500 only
    when the row exists and a foreign key among the fields sent finds no
    parent; a 400 makes no query.  Unless the answer is 200 the store is
    unchanged.  Over any pool a 500 comes without a query, from a rejected
    UPDATE, or from a rejected re-read after an UPDATE that affected rows. *)
Theorem partial_update_changes_nothing_unless_200 isFloatString r req
    (w : World Mem.Db) n resp w' :
  has_int_id req n →
  api isFloatString Mem.getPool r PartialUpdate req w = (resp, w') →
  let cols := set_clause r (body req) in
  (status resp = 200 ∨ status resp = 400 ∨ status resp = 404 ∨ status resp = 500) ∧
  (status resp = 404 → Mem.rows (Mem.table r (store w)) !! n = None) ∧
  (status resp = 500 →
     is_Some (Mem.rows (Mem.table r (store w)) !! n) ∧
     Mem.references_hold r (store w) (zip cols (coerced r (body req) <$> cols)) = false) ∧
  (status resp = 400 → w' = w) ∧
  (status resp ≠ 200 → store w' = store w) ∧
  (∀ (Store : Type) (getPool : Store → option (Pool Store)) (w0 : World Store)
     resp0 w0',
     api isFloatString getPool r PartialUpdate req w0 = (resp0, w0') →
     status resp0 = 500 →
     issued w0 w0' []
     ∨ issued w0 w0' [update_event r req Rejected]
     ∨ ∃ res, affectedRows_is_zero res = false ∧
         issued w0 w0' [update_event r req (Resolved res);
                        reread_event r (prop (params req) "id") Rejected]).
Proof.
  intros Hid H cols.
  assert (Hany : ∀ (Store : Type) (getPool : Store → option (Pool Store))
            (w0 : World Store) resp0 w0',
            api isFloatString getPool r PartialUpdate req w0 = (resp0, w0') →
            status resp0 = 500 →
            issued w0 w0' []
            ∨ issued w0 w0' [update_event r req Rejected]
            ∨ ∃ res, affectedRows_is_zero res = false ∧
                issued w0 w0' [update_event r req (Resolved res);
                               reread_event r (prop (params req) "id") Rejected]).
  { intros Store getPool w0 resp0 w0' H0 Hs0.
    destruct (partial_update_run _ _ _ _ _ _ _ H0) as
      [[-> _]|(pool & _ & _ & [(e1 & -> & _ & Hi & _)|[(e1 & res & -> & _ & _ & _ & ->)|
        [(e1 & res & e2 & st & -> & -> & _ & _ & Hi & Hz & _)
        |(e1 & res & e2 & rows & st & -> & -> & _ & _ & _ & _ & ->)]]])];
      try done.
    - left. unfold issued. by rewrite app_nil_r.
    - by right; left.
    - right; right. by exists res. }
  destruct (handleValidation isFloatString (update_rules r) req) as [failure|] eqn:Hv.
  { rewrite api_partial_update in H. unfold partial_update, route in H.
    rewrite Hv in H. injection H as <- <-.
    apply handleValidation_failure in Hv as (Hs & _).
    rewrite Hs. split_and!; try done. by right; left. }
  destruct (decide (cols = [])) as [Hnil|Hne].
  { rewrite api_partial_update in H. unfold partial_update, route in H.
    subst cols. rewrite Hv, Hnil in H. injection H as <- <-.
    cbn. split_and!; try done. by right; left. }
  rewrite (mem_partial_update _ _ _ _ n Hid Hv Hne) in H. fold cols in H.
  destruct (Mem.rows (Mem.table r (store w)) !! n) as [row|] eqn:Hrow.
  2:{ injection H as <- <-. cbn [status json store]. split_and!; try done.
      by right; right; left. }
  destruct (Mem.references_hold r (store w) _) eqn:Href; cbn [negb] in H;
    injection H as <- <-; cbn [status json store]; split_and!;
    first [ done | by left | by right; right; right
          | intros _; split; [by eexists|done] ].
Qed.

Lemma mem_partial_update_ok isFloatString r req (w : World Mem.Db) resp w' :
  api isFloatString Mem.getPool r PartialUpdate req w = (resp, w') →
  status resp = 200 →
  ∃ n row,
    Mem.sql_int (prop (params req) "id") = Some n ∧
    Mem.rows (Mem.table r (store w)) !! n = Some row ∧
    set_clause r (body req) ≠ [] ∧
    store w' = after_update r n row (body req) (store w).
Proof.
  intros H Hst.
  destruct (partial_update_run _ _ _ _ _ _ _ H) as
    [[-> [Hs|Hs]]|(pool & Hpool & Hne & [(e1 & -> & _ & _ & Hs)|[(e1 & res & -> & _ & _ & _ & ->)|
      [(e1 & res & e2 & st & -> & -> & _ & _ & _ & _ & Hs)
      |(e1 & res & e2 & rows & st & -> & -> & Ha1 & Ha2 & _ & Hz & ->)]]])];
    try (rewrite Hs in Hst; done); try done.
  injection Hpool as <-.
  unfold answered, update_event, reread_event in Ha1, Ha2.
  cbn [ev_sql ev_params ev_outcome] in Ha1, Ha2.
  rewrite mem_select_by_id in Ha2. injection Ha2 as _ <-.
  rewrite mem_update in Ha1
    by (first [apply set_clause_sublist | done | by rewrite length_fmap]).
  destruct (Mem.sql_int (prop (params req) "id")) as [n|] eqn:Hn; cbn in Ha1;
    [|by simplify_eq].
  destruct (Mem.rows (Mem.table r (store w)) !! n) as [row|] eqn:Hrow; cbn in Ha1;
    [|by simplify_eq].
  destruct (Mem.references_hold _ _ _); cbn [negb] in Ha1; [|by simplify_eq].
  injection Ha1 as <- <-. by exists n, row.
Qed.

(** ** A renamed category and the label of its products *)

(** X14. After a Partial Update of a category answered 200, Get by Id of
    any product of that category shows the [nombre] of the request as its
    [categoria], and the product's own [nombre] as before. *)
Theorem renamed_category_shows_in_products isFloatString req (w : World Mem.Db)
    k resp w' :
  has_int_id req k →
  api isFloatString Mem.getPool Categoria PartialUpdate req w = (resp, w') →
  status resp = 200 →
  ∀ req' lg n row,
    has_int_id req' n →
    Mem.rows (Mem.productos (store w)) !! n = Some row →
    Mem.sql_int (Mem.col row "categoria_id") = Some k →
    ∃ x,
      (api isFloatString Mem.getPool Producto GetById req'
         {| store := store w'; log := lg |}).1
      = json 200 true "Consulta realizada correctamente" (OneRow x) ∧
      x !! "categoria" = Some (prop (body req) "nombre") ∧
      x !! "nombre" = Some (Mem.col row "nombre").
Proof.
  intros Hid H Hst req' lg n row Hid' Hrow Hk.
  destruct (mem_partial_update_ok _ _ _ _ _ _ H Hst) as (k' & crow & Hk' & Hcrow & Hne & Hw').
  rewrite (has_int_id_sql_int _ _ Hid) in Hk'. injection Hk' as <-.
  assert (Hcols : set_clause Categoria (body req) = ["nombre"]).
  { unfold set_clause in Hne |- *. cbn in Hne |- *.
    by destruct (supplied (body req) "nombre"). }
  assert (Hdef : is_defined (prop (body req) "nombre") = true).
  { assert (Hin : "nombre" ∈ set_clause Categoria (body req))
      by (rewrite Hcols; by repeat constructor).
    unfold set_clause in Hin. by apply list_elem_of_In, filter_In in Hin as [_ ?]. }
  rewrite (mem_get_by_id _ _ _ _ n Hid'). cbn [fst store]. rewrite Hw'.
  unfold Mem.select_by_id. rewrite (has_int_id_sql_int _ _ Hid').
  unfold after_update. rewrite table_with_table_ne by done. cbn [Mem.table].
  rewrite Hrow. rewrite Hcols. cbn [Mem.project]. rewrite Hk. cbn [mbind option_bind].
  cbn [Mem.with_table Mem.categorias Mem.rows]. rewrite lookup_insert_eq.
  cbn [mbind option_bind option_list]. eexists. split; [reflexivity|]. split.
  - cbn. rewrite lookup_insert_ne by done. rewrite lookup_insert_eq. f_equal.
    unfold Mem.col, Mem.stamp. rewrite lookup_insert_ne by done.
    cbn. unfold Mem.assign. cbn. rewrite lookup_insert_eq. cbn.
    unfold coerced. cbn. by destruct (prop (body req) "nombre").
  - cbn. rewrite !lookup_insert_ne by done. by rewrite lookup_insert_eq.
Qed.

(** ** The health check *)

Section Health.
Context {Store : Type}.
Variable getPool : Store → option (Pool Store).

(** X15. The health check makes at most one query, [SELECT 1 AS ok]
    without parameters.  It answers 200 exactly when that query resolved with
    a first row, then with [db] telling whether the row's [ok] is 1; in every
    other case it answers 500 with status [error] and [db] false. *)
Theorem health_reports_the_round_trip (w : World Store) resp w' :
  health getPool w = (resp, w') →
  (issued w w' [] ∧ getPool (store w) = None ∨ ∃ o, issued w w' [ping o]) ∧
  (h_code resp = 200 ↔
     ∃ row more, issued w w' [ping (Resolved (ResultRows (row :: more)))]) ∧
  (∀ row more, issued w w' [ping (Resolved (ResultRows (row :: more)))] →
     resp = {| h_code := 200; h_status := "ok"; h_db := is_one (prop row "ok") |}) ∧
  (h_code resp ≠ 200 → resp = {| h_code := 500; h_status := "error"; h_db := false |}).
Proof.
  unfold health, bind, await_getPool, query, first_ok, ret. intros H.
  destruct (getPool (store w)) as [pool|] eqn:Hpool.
  - destruct (pool "SELECT 1 AS ok" [] (store w)) as [[[[|row more]|a i]|] st] eqn:Hq;
      cbn in H; injection H as <- <-; unfold issued, ping; cbn [log].
    all: split_and!; try done; try (right; by eexists).
    all: try (split; [done|]; intros (row' & more' & Hi); apply log_extended in Hi;
              by simplify_eq).
    all: try (intros row' more' Hi; apply log_extended in Hi; by simplify_eq).
    split; [intros _; by eexists _, _|done].
  - injection H as <- <-. unfold issued. split_and!; try done.
    + left. by rewrite app_nil_r.
    + split; [done|]. intros (row & more & Hi). by apply log_unchanged in Hi.
    + intros row more Hi. by apply log_unchanged in Hi.
Qed.
End Health.

(** ** The further properties at sample requests *)

Lemma statements_are_few_and_balanced_witness :
  let req := request "1" [("precio", JNum 50); ("disponible", JBool false)] in
  let run := sample Producto PartialUpdate req menu_world in
  let evs := drop (length (log menu_world)) (log run.2) in
  issued menu_world run.2 evs ∧ length evs = 2%nat ∧ Forall balanced evs.
Proof.
  intros req run evs.
  assert (Hi : issued menu_world run.2 evs) by (vm_compute; reflexivity).
  split_and!; [exact Hi|vm_compute; reflexivity|].
  apply (statements_are_few_and_balanced sample_float_check Mem.getPool
           Producto PartialUpdate req menu_world run.1 run.2 evs);
    [vm_compute; reflexivity|exact Hi].
Defined.

Lemma envelope_is_uniform_witness :
  let run := sample Producto GetById (request "7" []) menu_world in
  status run.1 = 404 ∧ ok run.1 = false ∧ data run.1 = Absent.
Proof.
  intros run.
  destruct (envelope_is_uniform sample_float_check Mem.getPool Producto GetById
              (request "7" []) menu_world run.1 run.2) as (_ & _ & Hdata & _);
    [vm_compute; reflexivity|].
  assert (Hok : ok run.1 = false) by (vm_compute; reflexivity).
  split_and!; [vm_compute; reflexivity|exact Hok|exact (Hdata Hok)].
Defined.

Lemma rejected_query_ends_the_run_witness :
  let req := request "" [("nombre", JStr "Bebidas")] in
  let run := api sample_float_check offline Categoria Create req nowhere in
  let ev := insert_event Categoria req Rejected in
  issued nowhere run.2 [ev] ∧ status run.1 = 500.
Proof.
  intros req run ev.
  assert (Hi : issued nowhere run.2 [ev]) by (vm_compute; reflexivity).
  split; [exact Hi|].
  destruct (rejected_query_ends_the_run sample_float_check offline Categoria Create
              req nowhere run.1 run.2 [ev] ev) as (_ & Hst & _).
  - vm_compute. reflexivity.
  - exact Hi.
  - by repeat constructor.
  - reflexivity.
  - exact Hst.
Defined.

Lemma malformed_id_is_refused_witness :
  let req := request "1a" [("nombre", JStr "Bebidas")] in
  params req !! "id" = Some (JStr "1a") ∧ int_of_string "1a" = None ∧
  (sample Categoria PartialUpdate req menu_world).2 = menu_world ∧
  status (sample Categoria PartialUpdate req menu_world).1 = 400.
Proof.
  intros req.
  assert (Hs : params req !! "id" = Some (JStr "1a")) by (vm_compute; reflexivity).
  assert (Hn : int_of_string "1a" = None) by (vm_compute; reflexivity).
  destruct (malformed_id_is_refused sample_float_check Mem.getPool Categoria
              PartialUpdate req menu_world "1a") as (resp & Hrun & Hst & _);
    [by right; left|exact Hs|exact Hn|].
  unfold sample. rewrite Hrun. by split_and!.
Defined.

Lemma create_requires_fields_witness :
  let req := request "" [("categoria_id", JInt 1); ("nombre", JStr "Doble")] in
  body req !! "precio" = None ∧
  (sample Producto Create req menu_world).2 = menu_world ∧
  status (sample Producto Create req menu_world).1 = 400.
Proof.
  intros req.
  assert (Hb : body req !! "precio" = None) by (vm_compute; reflexivity).
  destruct (create_requires_fields sample_float_check Mem.getPool Producto req
              menu_world "precio") as (resp & Hrun & Hst & _);
    [by repeat constructor|exact Hb|].
  unfold sample. rewrite Hrun. by split_and!.
Defined.

Lemma delete_removes_only_the_row_witness :
  let run := sample Producto Delete_ (request "1" []) menu_world in
  has_int_id (request "1" []) 1 ∧
  status run.1 = 200 ∧
  Mem.rows (Mem.productos (store run.2)) !! 1 = None ∧
  Mem.categorias (store run.2) = Mem.categorias (store menu_world).
Proof.
  intros run.
  assert (Hid : has_int_id (request "1" []) 1)
    by (exists "1"; split; vm_compute; reflexivity).
  destruct (delete_removes_only_the_row sample_float_check Producto (request "1" [])
              menu_world 1 run.1 run.2 Hid) as (_ & _ & Hgone & _ & Hothers & _);
    [vm_compute; reflexivity|].
  split_and!; [exact Hid|vm_compute; reflexivity|exact Hgone|].
  by apply (Hothers Categoria).
Defined.

Lemma create_adds_one_row_witness :
  let req := request "" [("nombre", JStr "Bebidas")] in
  let run := sample Categoria Create req menu_world in
  status run.1 = 201 ∧
  Mem.rows (Mem.categorias (store menu_world)) !! 2 = None ∧
  Mem.auto_increment (Mem.categorias (store run.2)) = 3 ∧
  Mem.productos (store run.2) = Mem.productos (store menu_world).
Proof.
  intros req run.
  assert (Hst : status run.1 = 201) by (vm_compute; reflexivity).
  destruct (create_adds_one_row sample_float_check Categoria req menu_world
              run.1 run.2) as [Hok _]; [vm_compute; reflexivity|].
  destruct (Hok Hst) as (Hfree & _ & Hnext & _ & Hothers).
  split_and!; [exact Hst|exact Hfree|exact Hnext|by apply (Hothers Producto)].
Defined.


Lemma reads_leave_the_store_alone_witness :
  store (sample Producto List_ (request "" []) menu_world).2 = store menu_world.
Proof.
  apply (reads_leave_the_store_alone sample_float_check Producto List_). by left.
Defined.

Lemma get_by_id_agrees_with_list_witness :
  has_int_id (request "1" []) 1 ∧
  ∃ x l,
    (sample Producto GetById (request "1" []) menu_world).1
    = json 200 true "Consulta realizada correctamente" (OneRow x) ∧
    data (sample Producto List_ (request "" []) menu_world).1 = RowArray l ∧ x ∈ l.
Proof.
  assert (Hid : has_int_id (request "1" []) 1)
    by (exists "1"; split; vm_compute; reflexivity).
  split; [exact Hid|].
  assert (Hget : (sample Producto GetById (request "1" []) menu_world).1
                 = json 200 true "Consulta realizada correctamente" (OneRow cheeseburger))
    by (vm_compute; reflexivity).
  destruct (proj1 (get_by_id_agrees_with_list sample_float_check Producto
                     (request "1" []) (request "" []) menu_world 1 cheeseburger Hid) Hget)
    as (l & Hl & Hin & _).
  exists cheeseburger, l. split_and!; [exact Hget|exact Hl|exact Hin].
Defined.

Lemma partial_update_changes_nothing_unless_200_witness :
  let req := request "1" [("categoria_id", JInt 7)] in
  let run := sample Producto PartialUpdate req menu_world in
  has_int_id req 1 ∧ status run.1 = 500 ∧ store run.2 = store menu_world ∧
  Mem.references_hold Producto (store menu_world) [("categoria_id", JInt 7)] = false.
Proof.
  intros req run.
  assert (Hid : has_int_id req 1) by (exists "1"; split; vm_compute; reflexivity).
  assert (Hst : status run.1 = 500) by (vm_compute; reflexivity).
  destruct (partial_update_changes_nothing_unless_200 sample_float_check Producto req
              menu_world 1 run.1 run.2 Hid) as (_ & _ & Hwhy & _ & Hsame & _);
    [apply surjective_pairing|].
  split_and!; [exact Hid|exact Hst|..].
  - apply Hsame. rewrite Hst. discriminate.
  - apply (Hwhy Hst).
Defined.

Lemma coercing_paths_send_truthiness_witness :
  let req := request "1" [("disponible", JStr "false")] in
  let run := sample Producto PartialUpdate req menu_world in
  let ev := update_event Producto req (Resolved (ResultHeader 1 0)) in
  head (drop (length (log menu_world)) (log run.2)) = Some ev ∧
  ev_params ev !! 0%nat = Some (JInt 1).
Proof.
  intros req run ev.
  assert (Hhead : head (drop (length (log menu_world)) (log run.2)) = Some ev)
    by (vm_compute; reflexivity).
  split; [exact Hhead|].
  destruct (coercing_paths_send_truthiness sample_float_check Mem.getPool Producto
              PartialUpdate req menu_world run.1 run.2 ev
              [reread_event Producto (JStr "1")
                 (Resolved (ResultRows (Mem.select_by_id Producto (store run.2) (JStr "1"))))]
              "disponible") as (i & Hcol & Hpar).
  - by left.
  - reflexivity.
  - vm_compute. reflexivity.
  - vm_compute. reflexivity.
  - vm_compute. reflexivity.
  - assert (i = 0%nat) as ->.
    { assert (Hc : set_clause Producto (body req) = ["disponible"])
        by (vm_compute; reflexivity).
      rewrite Hc in Hcol. destruct i; [done|]. by destruct i. }
    rewrite Hpar. vm_compute. reflexivity.
Defined.

Lemma first_statement_has_no_undefined_witness :
  let req := request "" [("categoria_id", JInt 1); ("nombre", JStr "Doble");
                         ("precio", JNum 60)] in
  let run := sample Producto Create req menu_world in
  ∃ ev rest, issued menu_world run.2 (ev :: rest) ∧
    ev_params ev = [JInt 1; JStr "Doble"; JNull; JNum 60; JInt 1] ∧
    Forall (λ v, is_defined v = true) (ev_params ev).
Proof.
  intros req run.
  destruct (drop (length (log menu_world)) (log run.2)) as [|ev rest] eqn:Hevs;
    [vm_compute in Hevs; discriminate|].
  exists ev, rest.
  assert (Hi : issued menu_world run.2 (ev :: rest))
    by (rewrite <- Hevs; vm_compute; reflexivity).
  assert (Hp : ev_params ev = [JInt 1; JStr "Doble"; JNull; JNum 60; JInt 1]).
  { vm_compute in Hevs. injection Hevs as <- _. reflexivity. }
  split_and!; [exact Hi|exact Hp|].
  apply (first_statement_has_no_undefined sample_float_check Mem.getPool Producto Create
           req menu_world run.1 run.2 ev rest); [vm_compute; reflexivity|exact Hi].
Defined.

Lemma health_reports_the_round_trip_witness :
  (health answering nowhere).1 = {| h_code := 200; h_status := "ok"; h_db := true |} ∧
  (health offline nowhere).1 = {| h_code := 500; h_status := "error"; h_db := false |}.
Proof.
  split.
  - destruct (health_reports_the_round_trip answering nowhere
                (health answering nowhere).1 (health answering nowhere).2)
      as (_ & _ & Hup & _); [vm_compute; reflexivity|].
    rewrite (Hup {[ "ok" := JInt 1 ]} []); vm_compute; reflexivity.
  - destruct (health_reports_the_round_trip offline nowhere
                (health offline nowhere).1 (health offline nowhere).2)
      as (_ & _ & _ & Hdown); [vm_compute; reflexivity|].
    apply Hdown. vm_compute. discriminate.
Defined.

Lemma renamed_category_shows_in_products_witness :
  let req := request "1" [("nombre", JStr "Burgers")] in
  let run := sample Categoria PartialUpdate req menu_world in
  has_int_id req 1 ∧ status run.1 = 200 ∧
  ∃ x, (sample Producto GetById (request "1" []) {| store := store run.2; log := [] |}).1
       = json 200 true "Consulta realizada correctamente" (OneRow x) ∧
       x !! "categoria" = Some (JStr "Burgers") ∧
       x !! "nombre" = Some (JStr "Cheeseburger").
Proof.
  intros req run.
  assert (Hid : has_int_id req 1) by (exists "1"; split; vm_compute; reflexivity).
  assert (Hid' : has_int_id (request "1" []) 1)
    by (exists "1"; split; vm_compute; reflexivity).
  assert (Hst : status run.1 = 200) by (vm_compute; reflexivity).
  split_and!; [exact Hid|exact Hst|].
  assert (Hrow : Mem.rows (Mem.productos (store menu_world)) !! 1 = Some orphan_row)
    by (vm_compute; reflexivity).
  assert (Hcat : Mem.sql_int (Mem.col orphan_row "categoria_id") = Some 1)
    by (vm_compute; reflexivity).
  destruct (renamed_category_shows_in_products sample_float_check req menu_world 1
              run.1 run.2 Hid (surjective_pairing _) Hst
              (request "1" []) [] 1 orphan_row Hid' Hrow Hcat) as (x & Hx & Hc & Hn).
  exists x. split_and!; [exact Hx|exact Hc|exact Hn].
Defined.
